(** * Infra: engine proxy, engine reconciler and grant store

    A shallow embedding of the parts of the Infra sources that the
    specification talks about:

    - package [engine]: the JWKS cache ([jwkCache.getjwk]), the JWT
      middleware ([jwtMiddleware]), the impersonating proxy handler
      ([proxyHandler]) and the reconciler tick started by [Run];
    - package [data]: [CreateGrant], [GetGrant], [ListGrants],
      [grantsMaxUpdateIndex], [DeleteGrants] and [userPublicKeys], over an
      explicit model of the relational tables and of a PostgreSQL
      transaction with savepoints;
    - access keys as exercised by [access_key_test.go].

    Go strings are byte strings ([string]); [time.Time] is an integer
    number of nanoseconds; [http.Header] is a finite map from canonical
    header names to the list of their values. *)

From Stdlib Require Import ZArith String Ascii List Bool Lia Sorted.
From stdpp Require Import base option list gmap strings sorting.

Local Open Scope Z_scope.

(** ** Go values shared by the packages *)

(** A Go [error] value, by the message it prints. *)
Definition error := string.

(** The usual [(value, error)] return of a Go function whose value is
    only meaningful when the error is nil. *)
Inductive result (A : Type) : Type :=
| Ok (a : A)
| Err (e : error).
Arguments Ok {A} a.
Arguments Err {A} e.

(** [time.Time], in nanoseconds since the Unix epoch.  The zero value
    [time.Time{}] is January 1 of year 1. *)
Definition Time := Z.
Definition Duration := Z.
Definition Second : Duration := 1000000000.
Definition Minute : Duration := 60 * Second.
Definition Hour : Duration := 60 * Minute.
Definition zeroTime : Time := -62135596800 * Second.
Definition IsZero (t : Time) : bool := t =? zeroTime.
Definition Before (t u : Time) : bool := t <? u.
Definition After (t u : Time) : bool := u <? t.

(** ** Package strings *)

Module strings.

(** [strings.HasPrefix]. *)
Fixpoint HasPrefix (s prefix : string) {struct prefix} : bool :=
  match prefix with
  | EmptyString => true
  | String a p =>
      match s with
      | EmptyString => false
      | String b t => Ascii.eqb a b && HasPrefix t p
      end
  end.

(** [strings.TrimPrefix]. *)
Fixpoint dropBytes (n : nat) (s : string) : string :=
  match n, s with
  | S k, String _ t => dropBytes k t
  | _, _ => s
  end.

Definition TrimPrefix (s prefix : string) : string :=
  if HasPrefix s prefix then dropBytes (String.length prefix) s else s.

(** The scan of [strings.Replace(s, old, new, -1)] for a non-empty [old]:
    occurrences are found from the left and do not overlap.  [skip] counts
    the bytes of the occurrence just matched that are still to be passed
    over. *)
Fixpoint replaceScan (old new : string) (skip : nat) (s : string) : string :=
  match s with
  | EmptyString => EmptyString
  | String c t =>
      match skip with
      | S k => replaceScan old new k t
      | O =>
          if HasPrefix s old
          then new +:+ replaceScan old new (Nat.pred (String.length old)) t
          else String c (replaceScan old new O t)
      end
  end.

(** With an empty [old], [new] is inserted before every byte and at the
    end. *)
Fixpoint replaceEmpty (new s : string) : string :=
  match s with
  | EmptyString => new
  | String c t => new +:+ String c (replaceEmpty new t)
  end.

(** [strings.Replace(s, old, new, -1)]: every occurrence is replaced. *)
Definition ReplaceAll (s old new : string) : string :=
  if String.eqb old new then s
  else match old with
       | EmptyString => replaceEmpty new s
       | String _ _ => replaceScan old new O s
       end.

(** [strings.Contains]. *)
Fixpoint Contains (s substr : string) : bool :=
  HasPrefix s substr ||
  match s with
  | EmptyString => false
  | String _ t => Contains t substr
  end.

End strings.

(** ** Package net/http *)

Module http.

Definition StatusUnauthorized : Z := 401.
Definition StatusNotFound : Z := 404.

(** [http.Header] is [map[string][]string]; keys are in canonical form,
    as the server stores them and as the sources spell them. *)
Definition Get (h : gmap string (list string)) (key : string) : string :=
  match h !! key with
  | Some (v :: _) => v
  | _ => EmptyString
  end.

Definition Values (h : gmap string (list string)) (key : string) : list string :=
  default [] (h !! key).

Definition Set_ (h : gmap string (list string)) (key value : string)
  : gmap string (list string) :=
  <[key := [value]]> h.

Definition Add (h : gmap string (list string)) (key value : string)
  : gmap string (list string) :=
  <[key := Values h key ++ [value]]> h.

Definition Del (h : gmap string (list string)) (key : string)
  : gmap string (list string) :=
  delete key h.

(** The fields of [url.URL] and [http.Request] the engine reads or
    writes.  [CtxEmail] is the request context's value for the key
    [HttpContextKeyEmail{}] when it is a string. *)
Record URL := mkURL {
  Path : string;
  RawPath : string;
  RawQuery : string;
}.

Record Request := mkRequest {
  Url : URL;
  Header : gmap string (list string);
  CtxEmail : option string;
}.

(** What a handler did with a request: answered it itself with
    [http.Error(w, body, code)], handed the (rewritten) request on, or
    panicked before it did either (the server recovers the panic and
    closes the connection; nothing is written and nothing is handed
    on). *)
Inductive Handled :=
| Replied (code : Z) (body : string)
| Passed (r : Request)
| Panicked.

(** [http.StripPrefix(prefix, h)] for a non-empty prefix: strips the
    prefix from [Path] and [RawPath] and hands on, or answers 404. *)
Definition StripPrefix (prefix : string) (r : Request) : Handled :=
  let p := strings.TrimPrefix (Path (Url r)) prefix in
  let rp := strings.TrimPrefix (RawPath (Url r)) prefix in
  if (String.length p <? String.length (Path (Url r)))%nat
     && (String.eqb (RawPath (Url r)) EmptyString
         || (String.length rp <? String.length (RawPath (Url r)))%nat)
  then Passed (mkRequest (mkURL p rp (RawQuery (Url r))) (Header r) (CtxEmail r))
  else Replied StatusNotFound "404 page not found".

End http.

(** ** Package gopkg.in/square/go-jose.v2 (and its jwt package) *)

Module jwt.

(** A value decoded into [interface{}]: only its dynamic type matters to
    the middleware's [.(string)] assertion. *)
Inductive any :=
| AString (s : string)
| ANumber (n : Z)
| ABool (b : bool)
| ANull
| AOther.

(** [jwt.Claims]: the registered claims.  [NumericDate]s are seconds
    since the epoch, nil when the claim is absent. *)
Record Claims := mkClaims {
  Issuer : string;
  Subject : string;
  Audience : list string;
  Expiry : option Z;
  NotBefore : option Z;
  IssuedAt : option Z;
  ID : string;
}.

Record Expected := mkExpected {
  EIssuer : string;
  ESubject : string;
  EAudience : list string;
  EID : string;
  ETime : Time;
}.

Inductive ValidationError :=
| ErrInvalidIssuer
| ErrInvalidSubject
| ErrInvalidID
| ErrInvalidAudience
| ErrNotValidYet
| ErrExpired
| ErrIssuedInTheFuture.

Definition DefaultLeeway : Duration := 1 * Minute.

(** The seconds between January 1 of year 1 and the Unix epoch
    ([unixToInternal] of package time). *)
Definition unixToInternal : Z := 62135596800.

(** 64-bit two's complement wrap-around. *)
Definition wrapInt64 (z : Z) : Z := (z + 2 ^ 63) mod 2 ^ 64 - 2 ^ 63.

(** [NumericDate.Time], for a non-nil date: [time.Unix(int64(d), 0)].
    A [time.Time] without a monotonic reading keeps its seconds since
    year 1 in an [int64], computed as [sec + unixToInternal] with
    wrap-around, and the comparisons read them back. *)
Definition NumericDate_Time (d : Z) : Time :=
  (wrapInt64 (d + unixToInternal) - unixToInternal) * Second.

Definition nonEmpty (s : string) : bool := negb (String.eqb s EmptyString).

Definition containsStr (l : list string) (v : string) : bool :=
  existsb (String.eqb v) l.

(** [Claims.ValidateWithLeeway].  [ETime e] is a reading of the clock
    and [leeway] a minute, so [Time.Add], which saturates only at the
    ends of the [int64] range, is the sum. *)
Definition ValidateWithLeeway (c : Claims) (e : Expected) (leeway : Duration)
  : option ValidationError :=
  if nonEmpty (EIssuer e) && negb (String.eqb (EIssuer e) (Issuer c))
  then Some ErrInvalidIssuer
  else if nonEmpty (ESubject e) && negb (String.eqb (ESubject e) (Subject c))
  then Some ErrInvalidSubject
  else if nonEmpty (EID e) && negb (String.eqb (EID e) (ID c))
  then Some ErrInvalidID
  else if negb (forallb (containsStr (Audience c)) (EAudience e))
  then Some ErrInvalidAudience
  else if IsZero (ETime e) then None
  else if match NotBefore c with
          | Some nbf => Before (ETime e + leeway) (NumericDate_Time nbf)
          | None => false
          end
  then Some ErrNotValidYet
  else if match Expiry c with
          | Some exp => After (ETime e - leeway) (NumericDate_Time exp)
          | None => false
          end
  then Some ErrExpired
  else if match IssuedAt c with
          | Some iat => Before (ETime e + leeway) (NumericDate_Time iat)
          | None => false
          end
  then Some ErrIssuedInTheFuture
  else None.

(** [Claims.Validate]. *)
Definition Validate (c : Claims) (e : Expected) : option ValidationError :=
  ValidateWithLeeway c e DefaultLeeway.

End jwt.

(** The operations of go-jose the engine calls.  Keys, tokens, the
    compact-serialization parser and signature verification are the
    library's; the engine's code is written against this interface.
    [TokenClaims tok key] is [tok.Claims(key, &cl, &out)] for a non-nil
    [key]: it fails when [key] does not verify the token's signature (or
    the payload does not decode), and otherwise yields the registered
    claims and the payload as a map.  With a nil [*jose.JSONWebKey] the
    call dereferences the pointer and panics. *)
Class Jose := {
  JSONWebKey : Type;
  JSONWebToken : Type;
  ParseSigned : string -> option JSONWebToken;
  TokenClaims : JSONWebToken -> JSONWebKey ->
                option (jwt.Claims * gmap string jwt.any);
}.

(** ** Package internal/kubernetes and the generated package v1

    Only their declarations are visible from [engine.Run]: the calls the
    tick makes and the fields it reads. *)

Module kubernetes.

Record RoleBinding := mkRoleBinding {
  Role : string;
  Users : list string;
}.

(** The cluster as one tick sees it: what each call returns. *)
Record Kubernetes := mkKubernetes {
  CA : result string;
  Endpoint : result string;
  Namespace : result string;
  Name : result string;
  SaToken : result string;
  UpdateRoles : list RoleBinding -> option error;
}.

End kubernetes.

Module v1.

Record User := mkUser { Email : string }.

Record Role := mkRole {
  RoleName : string;
  RoleUsers : list User;
}.

Record ListRolesResponse := mkListRolesResponse { Roles : list Role }.

Record CreateDestinationResponse := mkCreateDestinationResponse { Id : string }.

Record CreateDestinationRequest := mkCreateDestinationRequest {
  ReqName : string;
  ReqCa : string;
  ReqEndpoint : string;
  ReqNamespace : string;
  ReqSaToken : string;
}.

(** A gRPC client method returns a pointer and an error; either may be
    nil.  The generated stubs return a nil pointer together with every
    non-nil error. *)
Record V1Client := mkV1Client {
  CreateDestination :
    CreateDestinationRequest -> option CreateDestinationResponse * option error;
  ListRoles : string -> option ListRolesResponse * option error;
}.

End v1.

(** ** Package engine *)

Module engine.

Record Options := mkOptions {
  Registry : string;
  Name : string;
  Endpoint : string;
  ForceTLSVerify : bool;
  APIKey : string;
}.

Definition JWKCacheRefresh : Duration := 5 * Minute.

Definition unauthorized : http.Handled :=
  http.Replied http.StatusUnauthorized "unauthorized".

Definition expired : http.Handled :=
  http.Replied http.StatusUnauthorized "expired".

(** [proxyHandler]'s returned handler.  The request it passes on is the
    one given to the reverse proxy's [ServeHTTP]. *)
Definition proxyHandler (bearerToken : string) (r : http.Request) : http.Handled :=
  let url :=
    if negb (String.eqb (http.Get (http.Header r) "X-Infra-Query") EmptyString)
    then http.mkURL (http.Path (http.Url r)) (http.RawPath (http.Url r))
           (http.Get (http.Header r) "X-Infra-Query")
    else http.Url r in
  match http.CtxEmail r with
  | None => unauthorized
  | Some email =>
      let h := http.Del (http.Header r) "X-Infra-Authorization" in
      let h := http.Set_ h "Impersonate-User" email in
      let h := http.Add h "Authorization" ("Bearer " +:+ bearerToken) in
      http.StripPrefix "/proxy" (http.mkRequest url h (http.CtxEmail r))
  end.

(** [proxyHandler] itself: it fails when the CA bundle holds no
    certificate ([caOk] is [AppendCertsFromPEM]'s verdict). *)
Definition newProxyHandler (caOk : bool) (bearerToken : string)
  : result (http.Request -> http.Handled) :=
  if caOk then Ok (proxyHandler bearerToken)
  else Err "could not append ca to client cert bundle".

(** How one run of the timer's function ended. *)
Inductive TickEnd :=
| Returned
| Panicked.

(** The function [Run] hands to [timer.Start]: the lines it prints and
    how it ended.  Reading a field through a nil pointer panics. *)
Definition tick (options : Options) (k8s : kubernetes.Kubernetes)
    (client : v1.V1Client) : list string * TickEnd :=
  match kubernetes.CA k8s with
  | Err err => ([err], Returned)
  | Ok ca =>
  match (if String.eqb (Endpoint options) EmptyString
         then kubernetes.Endpoint k8s else Ok (Endpoint options)) with
  | Err err => ([err], Returned)
  | Ok endpoint =>
  match kubernetes.Namespace k8s with
  | Err err => ([err], Returned)
  | Ok namespace =>
  match (if String.eqb (Name options) EmptyString
         then kubernetes.Name k8s else Ok (Name options)) with
  | Err err => ([err], Returned)
  | Ok name =>
  match kubernetes.SaToken k8s with
  | Err err => ([err], Returned)
  | Ok saToken =>
  match v1.CreateDestination client
          (v1.mkCreateDestinationRequest name ca endpoint namespace saToken) with
  | (_, Some err) => ([err], Returned)
  | (None, None) => ([], Panicked)
  | (Some res, None) =>
      let '(rolesRes, err) := v1.ListRoles client (v1.Id res) in
      let printed := match err with Some e => [e] | None => [] end in
      match rolesRes with
      | None => (printed, Panicked)
      | Some rolesRes =>
          let rbs :=
            map (fun r => kubernetes.mkRoleBinding (v1.RoleName r)
                            (map v1.Email (v1.RoleUsers r)))
                (v1.Roles rolesRes) in
          match kubernetes.UpdateRoles k8s rbs with
          | Some err => (printed ++ [err], Returned)
          | None => (printed, Returned)
          end
      end
  end end end end end end.

Section WithJose.
Context `{J : Jose}.

Record jwkCache := mkJwkCache {
  key : option JSONWebKey;
  lastChecked : Time;
}.

(** [jwkCache.getjwk].  [fetch] is what the GET of
    [/.well-known/jwks.json], the read of its body and its decoding give
    when they are run: the keys of the set, or the first error. *)
Definition getjwk (fetch : result (list JSONWebKey)) (now : Time) (j : jwkCache)
  : result (option JSONWebKey) * jwkCache :=
  if negb (IsZero (lastChecked j)) && Before now (lastChecked j + JWKCacheRefresh)
  then (Ok (key j), j)
  else
    match fetch with
    | Err err => (Err err, j)
    | Ok [] => (Err "no jwks provided by registry", j)
    | Ok (k :: _) => (Ok (Some k), mkJwkCache (Some k) now)
    end.

Definition expectedClaims (now : Time) : jwt.Expected :=
  jwt.mkExpected "infra" EmptyString [] EmptyString now.

(** [jwtMiddleware(getjwk, next)]: either it answers itself or it calls
    [next] with the request whose context carries the email.  [getjwk]
    is any [GetJWKFunc], with the state it keeps; when it returns a nil
    key and a nil error, [tok.Claims] panics on the nil key. *)
Definition jwtMiddleware {St : Type}
    (getjwk : St -> result (option JSONWebKey) * St)
    (now : Time) (st : St) (r : http.Request) : http.Handled * St :=
  let authorization := http.Get (http.Header r) "X-Infra-Authorization" in
  let raw := strings.ReplaceAll authorization "Bearer " EmptyString in
  if String.eqb raw EmptyString then (unauthorized, st)
  else
    match ParseSigned raw with
    | None => (unauthorized, st)
    | Some tok =>
        match getjwk st with
        | (Err _, st') => (unauthorized, st')
        | (Ok None, st') => (http.Panicked, st')
        | (Ok (Some key), st') =>
            match TokenClaims tok key with
            | None => (unauthorized, st')
            | Some (cl, out) =>
                match jwt.Validate cl (expectedClaims now) with
                | Some jwt.ErrExpired => (expired, st')
                | Some _ => (unauthorized, st')
                | None =>
                    match out !! "email" with
                    | Some (jwt.AString email) =>
                        (http.Passed
                           (http.mkRequest (http.Url r) (http.Header r) (Some email)),
                         st')
                    | _ => (unauthorized, st')
                    end
                end
            end
        end
    end.

(** The route [Run] mounts at [/proxy/]:
    [jwtMiddleware(cache.getjwk, ph)]. *)
Definition serveProxy (bearerToken : string) (fetch : result (list JSONWebKey))
    (now : Time) (j : jwkCache) (r : http.Request) : http.Handled * jwkCache :=
  match jwtMiddleware (getjwk fetch now) now j r with
  | (http.Passed r', j') => (proxyHandler bearerToken r', j')
  | (http.Replied code body, j') => (http.Replied code body, j')
  | (http.Panicked, j') => (http.Panicked, j')
  end.

(** *** Derived notions, for the statements about the middleware *)

(** The string the middleware parses as a JWT. *)
Definition rawToken (r : http.Request) : string :=
  strings.ReplaceAll (http.Get (http.Header r) "X-Infra-Authorization")
                     "Bearer " EmptyString.

(** What the middleware decided, apart from the headers and URL of the
    request it hands on: its answer, the email it put in the context, or
    a panic. *)
Inductive Verdict :=
| Answered (code : Z) (body : string)
| HandedOn (email : option string)
| Panic.

Definition verdict (h : http.Handled) : Verdict :=
  match h with
  | http.Replied code body => Answered code body
  | http.Passed r => HandedOn (http.CtxEmail r)
  | http.Panicked => Panic
  end.

(** The middleware, as a function of the raw token. *)
Definition checkToken {St : Type}
    (getjwk : St -> result (option JSONWebKey) * St)
    (now : Time) (st : St) (raw : string)
  : Verdict * St :=
  if String.eqb raw EmptyString then (verdict unauthorized, st)
  else
    match ParseSigned raw with
    | None => (verdict unauthorized, st)
    | Some tok =>
        match getjwk st with
        | (Err _, st') => (verdict unauthorized, st')
        | (Ok None, st') => (Panic, st')
        | (Ok (Some key), st') =>
            match TokenClaims tok key with
            | None => (verdict unauthorized, st')
            | Some (cl, out) =>
                match jwt.Validate cl (expectedClaims now) with
                | Some jwt.ErrExpired => (verdict expired, st')
                | Some _ => (verdict unauthorized, st')
                | None =>
                    match out !! "email" with
                    | Some (jwt.AString email) => (HandedOn (Some email), st')
                    | _ => (verdict unauthorized, st')
                    end
                end
            end
        end
    end.

(** The test [getjwk] makes before it fetches. *)
Definition cacheFresh (j : jwkCache) (now : Time) : bool :=
  negb (IsZero (lastChecked j))
  && Before now (lastChecked j + JWKCacheRefresh).

End WithJose.

End engine.

(** ** Package uid

    The package is not among the sources; [data] uses these operations
    of it.  An id is a 64-bit number, a polymorphic id a tagged string. *)

Class UidPkg := {
  (** [PolymorphicID.IsIdentity] *)
  IsIdentity : string -> bool;
  (** [PolymorphicID.ID]: the numeric id, or an error *)
  PolymorphicID_ID : string -> result Z;
  (** [NewGroupPolymorphicID(id).String()] *)
  NewGroupPolymorphicID : Z -> string;
}.

(** ** Package models *)

Module models.

Record Model := mkModel {
  ID : Z;
  CreatedAt : Time;
  UpdatedAt : Time;
  DeletedAt : option Time;
}.

(** The row type of [grantsTable], with the [update_index] column that
    the queries select next to [ScanFields]. *)
Record Grant := mkGrant {
  GModel : Model;
  OrganizationID : Z;
  Subject : string;
  Privilege : string;
  Resource : string;
  CreatedBy : Z;
  UpdateIndex : Z;
}.

(** [UserPublicKey] has no organization of its own. *)
Record UserPublicKey := mkUserPublicKey {
  KModel : Model;
  UserID : Z;
  KeyName : string;
  PublicKey : string;
  KeyType : string;
  KeyExpiresAt : Time;
  Fingerprint : string;
}.

Record Identity := mkIdentity {
  IModel : Model;
  IOrganizationID : Z;
  IName : string;
}.

(** [models.AccessKey], with the fields [access_key_test.go] sets and
    compares. *)
Record AccessKey := mkAccessKey {
  AModel : Model;
  AOrganizationID : Z;
  AName : string;
  IssuedFor : Z;
  ProviderID : Z;
  ExpiresAt : Time;
  Extension : Duration;
  ExtensionDeadline : Time;
  KeyID : string;
  Secret : string;
  SecretChecksum : string;
  Scopes : list string;
}.

Definition live (m : Model) : bool :=
  match DeletedAt m with
  | None => true
  | Some _ => false
  end.

End models.

(** ** Package data *)

Module data.
Import models.

(** Errors of the data layer: a PostgreSQL error with its SQLSTATE code,
    the sentinel errors, a failed [Scan], or an [fmt.Errorf] message. *)
Inductive Error :=
| PgError (code : string)
| ErrDuplicate
| ErrNotFound
| ScanError
| Errorf (msg : string).

(** Codes of package pgerrcode. *)
Definition UniqueViolation : string := "23505".
Definition NoActiveSQLTransaction : string := "25P01".
Definition InFailedSQLTransaction : string := "25P02".
Definition InvalidSavepointSpecification : string := "3B001".

Definition isPgErrorCode (err : Error) (code : string) : bool :=
  match err with
  | PgError c => String.eqb c code
  | _ => false
  end.

(** The tables the modelled queries read. [identities_groups] holds the
    (identity_id, group_id) join rows. *)
Record Tables := mkTables {
  grants : list Grant;
  user_public_keys : list UserPublicKey;
  identities : list Identity;
  identities_groups : list (Z * Z);
}.

(** A [ReadTxn]: the organization it carries and the rows it sees. *)
Record ReadTxn := mkReadTxn {
  OrganizationID_ : Z;
  rows : Tables;
}.

(** *** SQL fragments *)

(** [s LIKE pattern] with the default escape character: [%] matches any
    run of bytes, [_] any one byte, a backslash makes the next byte
    literal (a pattern ending in a lone backslash, which PostgreSQL
    rejects, never arises from the patterns built here, which end in
    [.%]). *)
Fixpoint like (pattern s : string) {struct pattern} : bool :=
  match pattern with
  | EmptyString =>
      match s with EmptyString => true | _ => false end
  | String "%" p =>
      (fix anyRun (s : string) : bool :=
         like p s ||
         match s with
         | EmptyString => false
         | String _ t => anyRun t
         end) s
  | String "_" p =>
      match s with
      | EmptyString => false
      | String _ t => like p t
      end
  | String "\" (String c p) =>
      match s with
      | EmptyString => false
      | String d t => Ascii.eqb c d && like p t
      end
  | String c p =>
      match s with
      | EmptyString => false
      | String d t => Ascii.eqb c d && like p t
      end
  end.

Definition inStrings (l : list string) (s : string) : bool :=
  existsb (String.eqb s) l.

(** [ORDER BY id ASC], by insertion. *)
Fixpoint insertById (g : Grant) (l : list Grant) : list Grant :=
  match l with
  | [] => [g]
  | h :: t =>
      if ID (GModel g) <=? ID (GModel h) then g :: h :: t
      else h :: insertById g t
  end.

Definition orderById (l : list Grant) : list Grant :=
  foldr insertById [] l.

(** [max(update_index)] over the selected rows: NULL over no row. *)
Definition maxUpdateIndexOf (l : list Grant) : option Z :=
  match l with
  | [] => None
  | g :: t => Some (foldr (fun h m => Z.max (UpdateIndex h) m) (UpdateIndex g) t)
  end.

(** Modelled from the spec: [Pagination.PaginateQuery] is not among the
    sources; "paginated by id ASC" is a LIMIT/OFFSET window over the
    ordered rows. *)
Record Pagination := mkPagination {
  Limit : nat;
  Offset : nat;
}.

Definition PaginateQuery (p : option Pagination) (l : list Grant) : list Grant :=
  match p with
  | None => l
  | Some p => take (Limit p) (drop (Offset p) l)
  end.

(** Modelled from the spec: [groupIDsForUser] is not among the sources;
    the groups a user belongs to are the join rows of
    [identities_groups]. *)
Definition groupIDsForUser (tx : ReadTxn) (userID : Z) : list Z :=
  map snd (filter (fun ig => fst ig = userID) (identities_groups (rows tx))).

(** *** userPublicKeys *)

Definition userPublicKeys (tx : ReadTxn) (userID : Z) : list UserPublicKey :=
  filter (fun k => live (KModel k) = true ∧ UserID k = userID)
         (user_public_keys (rows tx)).

(** *** GetGrant *)

Record GetGrantOptions := mkGetGrantOptions {
  GetByID : Z;
  GetBySubject : string;
  GetByPrivilege : string;
  GetByResource : string;
}.

(** Modelled from the spec: [handleReadError] is not among the sources;
    a query without a row is reported as not found. *)
Definition handleReadError (found : option Grant) : Error + Grant :=
  match found with
  | None => inl ErrNotFound
  | Some g => inr g
  end.

Definition GetGrant (tx : ReadTxn) (opts : GetGrantOptions) : Error + Grant :=
  let base g :=
    (OrganizationID g =? OrganizationID_ tx) && live (GModel g) in
  if negb (GetByID opts =? 0) then
    handleReadError
      (find (fun g => base g && (ID (GModel g) =? GetByID opts)) (grants (rows tx)))
  else if negb (String.eqb (GetBySubject opts) EmptyString) then
    handleReadError
      (find (fun g => base g
                      && String.eqb (Subject g) (GetBySubject opts)
                      && String.eqb (Privilege g) (GetByPrivilege opts)
                      && String.eqb (Resource g) (GetByResource opts))
            (grants (rows tx)))
  else inl (Errorf "GetGrant requires an ID or subject").

(** *** ListGrants and grantsMaxUpdateIndex *)

Record ListGrantsOptions := mkListGrantsOptions {
  BySubject : string;
  ByPrivileges : list string;
  ByResource : string;
  ByDestination : string;
  IncludeInheritedFromGroups : bool;
  ExcludeConnectorGrant : bool;
  Pagination_ : option Pagination;
  (** whether the [MaxUpdateIndex] pointer is non-nil *)
  MaxUpdateIndex : bool;
}.

(** What a call leaves behind: the returned slice and error, and the
    values written through [opts.MaxUpdateIndex] and
    [opts.Pagination.TotalCount]. *)
Record ListGrantsReturn := mkListGrantsReturn {
  result_ : list Grant;
  err_ : option Error;
  maxUpdateIndex_ : option Z;
  totalCount_ : option Z;
}.

Record grantsMaxUpdateIndexOptions := mkGrantsMaxUpdateIndexOptions {
  MaxByResource : string;
}.

(** The WHERE clause of [grantsMaxUpdateIndex]. *)
Definition maxIndexWhere (tx : ReadTxn) (opts : grantsMaxUpdateIndexOptions)
    (g : Grant) : bool :=
  (OrganizationID g =? OrganizationID_ tx)
  && (String.eqb (MaxByResource opts) EmptyString
      || String.eqb (Resource g) (MaxByResource opts)).

(** [grantsMaxUpdateIndex]: the scanned value and the error.  Scanning
    the NULL that [max] gives over no row into an [int64] fails and
    leaves the result 0. *)
Definition grantsMaxUpdateIndex (tx : ReadTxn) (opts : grantsMaxUpdateIndexOptions)
  : Z * option Error :=
  match maxUpdateIndexOf (filter (fun g => maxIndexWhere tx opts g = true)
                                 (grants (rows tx))) with
  | Some m => (m, None)
  | None => (0, Some ScanError)
  end.

(** The subjects a call selects: [None] is no condition on the subject,
    [Some l] is [subject IN l]; or the error of an inherited listing for
    a subject that is not a user. *)
Definition subjectsFor `{UidPkg} (tx : ReadTxn) (opts : ListGrantsOptions)
  : Error + option (list string) :=
  if String.eqb (BySubject opts) EmptyString then inr None
  else if negb (IncludeInheritedFromGroups opts) then inr (Some [BySubject opts])
  else
    match PolymorphicID_ID (BySubject opts) with
    | Err _ => inl (Errorf "IncludeInheritedFromGroups requires a userId subject")
    | Ok userID =>
        if negb (IsIdentity (BySubject opts))
        then inl (Errorf "IncludeInheritedFromGroups requires a userId subject")
        else inr (Some (BySubject opts
                        :: map NewGroupPolymorphicID (groupIDsForUser tx userID)))
    end.

Definition destinationMatches (destination : string) (g : Grant) : bool :=
  String.eqb (Resource g) destination || like (destination +:+ ".%") (Resource g).

(** The conditions of [ListGrants] on privilege, resource and
    destination, and the exclusion of the connector grant. *)
Definition restWhere (opts : ListGrantsOptions) (g : Grant) : bool :=
  (match ByPrivileges opts with
   | [] => true
   | ps => inStrings ps (Privilege g)
   end)
  && (String.eqb (ByResource opts) EmptyString
      || String.eqb (Resource g) (ByResource opts))
  && (String.eqb (ByDestination opts) EmptyString
      || destinationMatches (ByDestination opts) g)
  && (negb (ExcludeConnectorGrant opts)
      || negb (String.eqb (Privilege g) "connector" && String.eqb (Resource g) "infra")).

(** The WHERE clause of [ListGrants], the subject condition resolved. *)
Definition listWhere (tx : ReadTxn) (opts : ListGrantsOptions)
    (subjects : option (list string)) (g : Grant) : bool :=
  live (GModel g)
  && (OrganizationID g =? OrganizationID_ tx)
  && match subjects with
     | None => true
     | Some l => inStrings l (Subject g)
     end
  && restWhere opts g.

Definition ListGrants `{UidPkg} (tx : ReadTxn) (opts : ListGrantsOptions)
  : ListGrantsReturn :=
  match subjectsFor tx opts with
  | inl err => mkListGrantsReturn [] (Some err) None None
  | inr subjects =>
      let matching :=
        orderById (filter (fun g => listWhere tx opts subjects g = true)
                          (grants (rows tx))) in
      let result := PaginateQuery (Pagination_ opts) matching in
      let total :=
        match Pagination_ opts, result with
        | Some _, _ :: _ => Some (Z.of_nat (length matching))
        | _, _ => None
        end in
      if MaxUpdateIndex opts then
        let '(maxIndex, err) :=
          grantsMaxUpdateIndex tx (mkGrantsMaxUpdateIndexOptions (ByResource opts)) in
        mkListGrantsReturn result err (Some maxIndex) total
      else mkListGrantsReturn result None None total
  end.

(** *** Write transactions

    A [WriteTxn] as PostgreSQL runs it: the rows it sees, the sequence
    [seq_update_index] (never rolled back), whether a transaction block
    is open, whether it is in the failed state, and its savepoints, the
    latest first, each with the rows at the time it was set. *)
Record WriteTxn := mkWriteTxn {
  wOrganizationID : Z;
  wrows : Tables;
  seq_update_index : Z;
  inBlock : bool;
  failed : bool;
  savepoints : list (string * Tables);
}.

Definition asReadTxn (tx : WriteTxn) : ReadTxn :=
  mkReadTxn (wOrganizationID tx) (wrows tx).

Inductive Stmt :=
| SAVEPOINT (name : string)
| ROLLBACK_TO_SAVEPOINT (name : string)
| RELEASE_SAVEPOINT (name : string)
(** [INSERT INTO grants (..., update_index) VALUES (..., nextval('seq_update_index'))] *)
| INSERT_GRANT (g : Grant)
(** [UPDATE grants SET deleted_at = ?, update_index = nextval('seq_update_index') WHERE ...] *)
| SOFT_DELETE_GRANTS (now : Time) (where_ : Grant -> bool).

(** The latest savepoint called [name], and the ones set before it. *)
Fixpoint fromSavepoint (name : string) (sps : list (string * Tables))
  : option ((string * Tables) * list (string * Tables)) :=
  match sps with
  | [] => None
  | sp :: older =>
      if String.eqb (fst sp) name then Some (sp, older)
      else fromSavepoint name older
  end.

(** The constraints of table grants: the primary key, and invariant (I1)
    as a unique index over the rows that are not soft-deleted. *)
Definition sameGrantKey (g h : Grant) : bool :=
  (OrganizationID g =? OrganizationID h)
  && String.eqb (Subject g) (Subject h)
  && String.eqb (Privilege g) (Privilege h)
  && String.eqb (Resource g) (Resource h).

Definition conflicts (g h : Grant) : bool :=
  (ID (GModel g) =? ID (GModel h))
  || (live (GModel g) && live (GModel h) && sameGrantKey g h).

Definition withGrants (t : Tables) (gs : list Grant) : Tables :=
  mkTables gs (user_public_keys t) (identities t) (identities_groups t).

Definition withUpdateIndex (g : Grant) (i : Z) : Grant :=
  mkGrant (GModel g) (OrganizationID g) (Subject g) (Privilege g) (Resource g)
          (CreatedBy g) i.

Definition softDeleted (now : Time) (g : Grant) (i : Z) : Grant :=
  mkGrant (mkModel (ID (GModel g)) (CreatedAt (GModel g)) (UpdatedAt (GModel g))
                   (Some now))
          (OrganizationID g) (Subject g) (Privilege g) (Resource g)
          (CreatedBy g) i.

(** The UPDATE of [DeleteGrants] over the rows in table order: every
    row it changes takes the next value of the sequence. *)
Fixpoint softDeleteRows (now : Time) (where_ : Grant -> bool) (seq : Z)
    (l : list Grant) : list Grant * Z :=
  match l with
  | [] => ([], seq)
  | g :: t =>
      if where_ g
      then let '(t', seq') := softDeleteRows now where_ (seq + 1) t in
           (softDeleted now g (seq + 1) :: t', seq')
      else let '(t', seq') := softDeleteRows now where_ seq t in
           (g :: t', seq')
  end.

Definition setFailed (tx : WriteTxn) : WriteTxn :=
  mkWriteTxn (wOrganizationID tx) (wrows tx) (seq_update_index tx)
             (inBlock tx) (inBlock tx) (savepoints tx).

(** [tx.Exec]: the error, if any, and the transaction afterwards.  In a
    failed transaction block only a rollback is accepted; an error
    inside a block puts it in the failed state; outside a block an
    erroring statement leaves no trace but the sequence values it drew. *)
Definition Exec (tx : WriteTxn) (s : Stmt) : option Error * WriteTxn :=
  match s with
  | SAVEPOINT name =>
      if negb (inBlock tx) then (Some (PgError NoActiveSQLTransaction), tx)
      else if failed tx then (Some (PgError InFailedSQLTransaction), tx)
      else (None,
            mkWriteTxn (wOrganizationID tx) (wrows tx) (seq_update_index tx)
                       true false ((name, wrows tx) :: savepoints tx))
  | ROLLBACK_TO_SAVEPOINT name =>
      if negb (inBlock tx) then (Some (PgError NoActiveSQLTransaction), tx)
      else
        match fromSavepoint name (savepoints tx) with
        | None => (Some (PgError InvalidSavepointSpecification), setFailed tx)
        | Some (sp, older) =>
            (None,
             mkWriteTxn (wOrganizationID tx) (snd sp) (seq_update_index tx)
                        true false (sp :: older))
        end
  | RELEASE_SAVEPOINT name =>
      if negb (inBlock tx) then (Some (PgError NoActiveSQLTransaction), tx)
      else if failed tx then (Some (PgError InFailedSQLTransaction), tx)
      else
        match fromSavepoint name (savepoints tx) with
        | None => (Some (PgError InvalidSavepointSpecification), setFailed tx)
        | Some (_, older) =>
            (None,
             mkWriteTxn (wOrganizationID tx) (wrows tx) (seq_update_index tx)
                        true false older)
        end
  | INSERT_GRANT g =>
      if inBlock tx && failed tx then (Some (PgError InFailedSQLTransaction), tx)
      else
        let index := seq_update_index tx + 1 in
        if existsb (conflicts g) (grants (wrows tx))
        then (Some (PgError UniqueViolation),
              mkWriteTxn (wOrganizationID tx) (wrows tx) index
                         (inBlock tx) (inBlock tx) (savepoints tx))
        else (None,
              mkWriteTxn (wOrganizationID tx)
                         (withGrants (wrows tx)
                            (grants (wrows tx) ++ [withUpdateIndex g index]))
                         index (inBlock tx) false (savepoints tx))
  | SOFT_DELETE_GRANTS now where_ =>
      if inBlock tx && failed tx then (Some (PgError InFailedSQLTransaction), tx)
      else
        let '(gs, seq) :=
          softDeleteRows now where_ (seq_update_index tx) (grants (wrows tx)) in
        (None,
         mkWriteTxn (wOrganizationID tx) (withGrants (wrows tx) gs) seq
                    (inBlock tx) false (savepoints tx))
  end.

(** *** CreateGrant and DeleteGrants *)

(** Modelled from the spec: [Model.OnInsert] is not among the sources;
    every entity carries an id and its creation and update times, which
    an insert fills in when they are unset. *)
Definition OnInsert (newID : Z) (now : Time) (m : Model) : Model :=
  mkModel (if ID m =? 0 then newID else ID m)
          (if IsZero (CreatedAt m) then now else CreatedAt m)
          (if IsZero (UpdatedAt m) then now else UpdatedAt m)
          (DeletedAt m).

(** Modelled from the spec: [setOrg] is not among the sources; a write
    transaction carries the organization its rows belong to. *)
Definition setOrg (tx : WriteTxn) (g : Grant) : Grant :=
  mkGrant (GModel g) (wOrganizationID tx) (Subject g) (Privilege g) (Resource g)
          (CreatedBy g) (UpdateIndex g).

(** Modelled from the spec: [handleError] is not among the sources; a
    unique-constraint conflict is reported as [ErrDuplicate]. *)
Definition handleError (err : Error) : Error :=
  if isPgErrorCode err UniqueViolation then ErrDuplicate else err.

(** [CreateGrant]: the returned error, the transaction afterwards, and
    the grant as left behind the pointer. *)
Definition CreateGrant (newID : Z) (now : Time) (tx : WriteTxn) (grant : Grant)
  : option Error * WriteTxn * Grant :=
  if String.eqb (Subject grant) EmptyString
  then (Some (Errorf "subject is required"), tx, grant)
  else if String.eqb (Privilege grant) EmptyString
  then (Some (Errorf "privilege is required"), tx, grant)
  else if String.eqb (Resource grant) EmptyString
  then (Some (Errorf "resource is required"), tx, grant)
  else
    let grant :=
      setOrg tx
        (mkGrant (OnInsert newID now (GModel grant)) (OrganizationID grant)
                 (Subject grant) (Privilege grant) (Resource grant)
                 (CreatedBy grant) (UpdateIndex grant)) in
    let '(err, tx1) := Exec tx (SAVEPOINT "beforeCreate") in
    if match err with
       | Some e => negb (isPgErrorCode e NoActiveSQLTransaction)
       | None => false
       end
    then (err, tx1, grant)
    else
      let '(err, tx2) := Exec tx1 (INSERT_GRANT grant) in
      match err with
      | Some e =>
          let '(_, tx3) := Exec tx2 (ROLLBACK_TO_SAVEPOINT "beforeCreate") in
          (Some (handleError e), tx3, grant)
      | None =>
          let '(_, tx3) := Exec tx2 (RELEASE_SAVEPOINT "beforeCreate") in
          (None, tx3, grant)
      end.

Record DeleteGrantsOptions := mkDeleteGrantsOptions {
  DelByID : Z;
  DelBySubject : string;
  DelByCreatedBy : Z;
  NotIDs : list Z;
}.

Definition DeleteGrants (now : Time) (tx : WriteTxn) (opts : DeleteGrantsOptions)
  : option Error * WriteTxn :=
  let base g := (OrganizationID g =? wOrganizationID tx) && live (GModel g) in
  if negb (DelByID opts =? 0) then
    Exec tx (SOFT_DELETE_GRANTS now
               (fun g => base g && (ID (GModel g) =? DelByID opts)))
  else if negb (String.eqb (DelBySubject opts) EmptyString) then
    Exec tx (SOFT_DELETE_GRANTS now
               (fun g => base g && String.eqb (Subject g) (DelBySubject opts)))
  else if negb (DelByCreatedBy opts =? 0) then
    Exec tx (SOFT_DELETE_GRANTS now
               (fun g => base g && (CreatedBy g =? DelByCreatedBy opts)
                         && negb (existsb (Z.eqb (ID (GModel g))) (NotIDs opts))))
  else (Some (Errorf "DeleteGrants requires an ID to delete"), tx).

(** The row [CreateGrant] inserts: the grant with its id and times
    filled in and the transaction's organization. *)
Definition inserted (newID : Z) (now : Time) (tx : WriteTxn) (grant : Grant) : Grant :=
  setOrg tx
    (mkGrant (OnInsert newID now (GModel grant)) (OrganizationID grant)
             (Subject grant) (Privilege grant) (Resource grant)
             (CreatedBy grant) (UpdateIndex grant)).

(** *** Access keys

    [CreateAccessKey], [GetAccessKey] and [ValidateAccessKey] are not
    among the sources; [access_key_test.go] calls them. *)

Inductive AccessKeyError :=
| ErrAccessKeyNotFound
| ErrAccessKeyInvalidSecret
| ErrAccessKeyExpired
| ErrAccessKeyDeadlineExceeded
| ErrAccessKey (msg : string).

Definition AccessKeyIDLength : nat := 10.
Definition AccessKeySecretLength : nat := 24.

(** The wire form [keyID.secret], split at its first dot. *)
Fixpoint cutAtDot (s : string) : string * string :=
  match s with
  | EmptyString => (EmptyString, EmptyString)
  | String c t =>
      if Ascii.eqb c "." then (EmptyString, t)
      else let '(k, rest) := cutAtDot t in (String c k, rest)
  end.

Definition withSecret (k : AccessKey) (secret : string) : AccessKey :=
  mkAccessKey (AModel k) (AOrganizationID k) (AName k) (IssuedFor k) (ProviderID k)
              (ExpiresAt k) (Extension k) (ExtensionDeadline k) (KeyID k)
              secret (SecretChecksum k) (Scopes k).

Definition withExtensionDeadline (k : AccessKey) (d : Time) : AccessKey :=
  mkAccessKey (AModel k) (AOrganizationID k) (AName k) (IssuedFor k) (ProviderID k)
              (ExpiresAt k) (Extension k) d (KeyID k)
              (Secret k) (SecretChecksum k) (Scopes k).

Section AccessKeys.

(** The checksum of a secret (a cryptographic hash in the program). *)
Variable secretChecksum : string -> string.

(** What a call draws from its surroundings: the clock, and the random
    id, key id and secret used for the fields left unset. *)
Record Fresh := mkFresh {
  freshNow : Time;
  freshID : Z;
  freshKeyID : string;
  freshSecret : string;
}.

(** Modelled from the spec: [CreateAccessKey] is not among the sources.
    Unset fields get their defaults (a generated key id and secret, a
    12 hour lifetime), the key id and secret have their fixed lengths,
    the checksum of the secret is computed, and the row is stored
    without the secret ("only a checksum persists").  Returns the wire
    form [keyID.secret], the table afterwards and the key as left behind
    the pointer. *)
Definition CreateAccessKey (f : Fresh) (org : Z) (table : list AccessKey)
    (key : AccessKey) : (AccessKeyError + string) * list AccessKey * AccessKey :=
  let keyID := if String.eqb (KeyID key) EmptyString then freshKeyID f else KeyID key in
  let secret := if String.eqb (Secret key) EmptyString then freshSecret f else Secret key in
  if negb (String.length keyID =? AccessKeyIDLength)%nat
  then (inl (ErrAccessKey "invalid key length"), table, key)
  else if negb (String.length secret =? AccessKeySecretLength)%nat
  then (inl (ErrAccessKey "invalid secret length"), table, key)
  else
    let key :=
      mkAccessKey (OnInsert (freshID f) (freshNow f) (AModel key)) org (AName key)
                  (IssuedFor key) (ProviderID key)
                  (if IsZero (ExpiresAt key) then freshNow f + 12 * Hour
                   else ExpiresAt key)
                  (Extension key) (ExtensionDeadline key) keyID secret
                  (secretChecksum secret) (Scopes key) in
    (inr (keyID +:+ "." +:+ secret), table ++ [withSecret key EmptyString], key).

(** Modelled from the spec: [GetAccessKey] with [ByID] is not among the
    sources; it reads the stored row of the transaction's organization
    that is not soft-deleted. *)
Definition GetAccessKey (org : Z) (table : list AccessKey) (id : Z)
  : AccessKeyError + AccessKey :=
  match find (fun k => (AOrganizationID k =? org) && live (AModel k)
                       && (ID (AModel k) =? id)) table with
  | Some k => inr k
  | None => inl ErrAccessKeyNotFound
  end.

(** Modelled from the spec: [ValidateAccessKey] is not among the
    sources.  "Validation parses the dot-separated form, looks up by
    keyID, compares checksums, and fails with one of
    ErrAccessKeyNotFound, ErrAccessKeyInvalidSecret, ErrAccessKeyExpired,
    ErrAccessKeyDeadlineExceeded"; a key is valid while "now <
    expires_at" and "now < extension_deadline", the extension deadline
    being optional: [access_key_test.go] validates keys that were
    created without one, whose [ExtensionDeadline] is the zero time.
    "When extension is non-zero on a successful validation,
    extension_deadline is advanced by extension, bounded by expires_at."
    Returns the key, and the table afterwards. *)
Definition ValidateAccessKey (now : Time) (table : list AccessKey)
    (authnKey : string) : (AccessKeyError + AccessKey) * list AccessKey :=
  let '(keyID, secret) := cutAtDot authnKey in
  match find (fun k => live (AModel k) && String.eqb (KeyID k) keyID) table with
  | None => (inl ErrAccessKeyNotFound, table)
  | Some k =>
      if negb (String.eqb (SecretChecksum k) (secretChecksum secret))
      then (inl ErrAccessKeyInvalidSecret, table)
      else if negb (now <? ExpiresAt k)
      then (inl ErrAccessKeyExpired, table)
      else if negb (IsZero (ExtensionDeadline k)) && negb (now <? ExtensionDeadline k)
      then (inl ErrAccessKeyDeadlineExceeded, table)
      else if Extension k =? 0 then (inr k, table)
      else
        let k' :=
          withExtensionDeadline k (Z.min (now + Extension k) (ExpiresAt k)) in
        (inr k',
         map (fun r => if String.eqb (KeyID r) keyID && live (AModel r)
                       then withExtensionDeadline r (ExtensionDeadline k') else r)
             table)
  end.

End AccessKeys.

End data.

(** ** Stand-ins for the libraries, for running the model on examples *)

Module fixtures.

(** A symbolic signature scheme: a key is a number, and a token records
    the key that signed it together with its decoded payload.  The
    parser knows the compact serializations listed in [known]. *)
Record Token := mkToken {
  signedBy : Z;
  claims : jwt.Claims;
  payload : gmap string jwt.any;
}.

Definition symbolicJose (known : list (string * Token)) : Jose :=
  {| JSONWebKey := Z;
     JSONWebToken := Token;
     ParseSigned s := snd <$> find (fun p => String.eqb (fst p) s) known;
     TokenClaims tok k :=
       if signedBy tok =? k then Some (claims tok, payload tok) else None |}.

(** Modelled from the spec: package uid is not among the sources; a
    polymorphic id is "a tagged string ("u:<id>" / "g:<id>")", the
    numeric id rendered in decimal. *)
Definition tagOf (s : string) : string := substring 0 2 s.
Definition idOf (s : string) : string := substring 2 (String.length s - 2) s.

Fixpoint digitsValue (acc : Z) (s : string) : option Z :=
  match s with
  | EmptyString => Some acc
  | String c t =>
      let n := Z.of_nat (nat_of_ascii c) in
      if (48 <=? n) && (n <=? 57) then digitsValue (10 * acc + (n - 48)) t
      else None
  end.

Fixpoint digitsOf (fuel : nat) (n : Z) (acc : string) : string :=
  match fuel with
  | O => acc
  | S fuel =>
      let acc := String (ascii_of_nat (Z.to_nat (48 + n mod 10))) acc in
      if n / 10 =? 0 then acc else digitsOf fuel (n / 10) acc
  end.

Definition specUid : UidPkg :=
  {| IsIdentity s := String.eqb (tagOf s) "u:";
     PolymorphicID_ID s :=
       if (String.eqb (tagOf s) "u:" || String.eqb (tagOf s) "g:")
          && negb (String.eqb (idOf s) EmptyString)
       then match digitsValue 0 (idOf s) with
            | Some n => Ok n
            | None => Err "invalid id"
            end
       else Err "invalid polymorphic id";
     NewGroupPolymorphicID id := "g:" +:+ digitsOf 20 id EmptyString |}.

End fixtures.

(** ** Concrete requests, clusters and tables *)

Module scenario.

Definition now : Time := 1700000000 * Second.

(** A token for alice@x, valid for another hour, signed by key [k]. *)
Definition aliceClaims : jwt.Claims :=
  jwt.mkClaims "infra" "alice@x" [] (Some 1700003600) (Some 1699999000) None
               EmptyString.

Definition aliceToken (k : Z) : fixtures.Token :=
  fixtures.mkToken k aliceClaims {[ "email" := jwt.AString "alice@x" ]}.

(** The registry publishes keys 1 and 2; ["jwt1"] is signed by key 1 and
    ["jwt2"] by key 2. *)
Definition jose : Jose :=
  fixtures.symbolicJose [("jwt1", aliceToken 1); ("jwt2", aliceToken 2)].

Definition published : list Z := [1; 2].

Definition emptyCache : engine.jwkCache (J := jose) :=
  engine.mkJwkCache (J := jose) None zeroTime.

Definition requestWith (headers : gmap string (list string)) : http.Request :=
  http.mkRequest (http.mkURL "/proxy/api/v1/pods" EmptyString "watch=1") headers None.

(** A request authenticated by the token of key 2. *)
Definition signedBySecondKey : http.Request :=
  requestWith {[ "X-Infra-Authorization" := ["Bearer jwt2"] ]}.

(** A request authenticated by the token of key 1 that also carries an
    [Authorization] header of the client's own. *)
Definition withOwnAuthorization : http.Request :=
  requestWith (<[ "Authorization" := ["Bearer client-token"] ]>
                 {[ "X-Infra-Authorization" := ["Bearer jwt1"] ]}).

(** A cluster and registry that answer every call but [ListRoles]. *)
Definition cluster : kubernetes.Kubernetes :=
  kubernetes.mkKubernetes (Ok "ca") (Ok "https://10.0.0.1") (Ok "infra")
                          (Ok "prod") (Ok "sa-token") (fun _ => None).

Definition registryWithoutRoles : v1.V1Client :=
  v1.mkV1Client (fun _ => (Some (v1.mkCreateDestinationResponse "d1"), None))
                (fun _ => (None, Some "rpc error: code = Unavailable")).

Definition options : engine.Options :=
  engine.mkOptions "registry:443" EmptyString EmptyString false "api-key".

End scenario.

Module store.
Import models data.

Definition row (id org : Z) (subject privilege resource : string) (index : Z)
  : Grant :=
  mkGrant (mkModel id 1000 1000 None) org subject privilege resource 0 index.

(** User 1 is in group 5.  Organization 1 has grants for the user and for
    the group on "prod" and a grant for another user on "staging";
    organization 2 has a grant of its own. *)
Definition viewProd : Grant := row 101 1 "u:1" "view" "prod" 1.
Definition adminProd : Grant := row 102 1 "g:5" "admin" "prod" 2.
Definition viewStaging : Grant := row 103 1 "u:2" "view" "staging" 5.
Definition otherOrg : Grant := row 104 2 "u:1" "admin" "prod" 7.

(** alice is a user of organization 2 with one public key. *)
Definition alice : Identity := mkIdentity (mkModel 7 1000 1000 None) 2 "alice@x".
Definition aliceKey : UserPublicKey :=
  mkUserPublicKey (mkModel 70 1000 1000 None) 7 "laptop" "AAAA" "ssh-ed25519" 0
                  "SHA256:abc".

Definition tables : Tables :=
  mkTables [adminProd; viewProd; viewStaging; otherOrg] [aliceKey] [alice] [(1, 5)].

(** A read transaction of organization 1. *)
Definition tx1 : ReadTxn := mkReadTxn 1 tables.

(** A write transaction of organization 1, inside a transaction block. *)
Definition wtx1 : WriteTxn := mkWriteTxn 1 tables 7 true false [].

Definition listing (subject destination : string) (inherited maxIndex : bool)
  : ListGrantsOptions :=
  mkListGrantsOptions subject [] EmptyString destination inherited false None maxIndex.

(** A second grant of "view" on "prod" to user 1. *)
Definition duplicate : Grant :=
  mkGrant (mkModel 0 zeroTime zeroTime None) 0 "u:1" "view" "prod" 9 0.

(** A stand-in for the checksum. *)
Definition checksum (secret : string) : string := "sum:" +:+ secret.

Definition now : Time := 1700000000 * Second.

(** The key of [createTestAccessKey(t, db, 5*time.Hour)]. *)
Definition testKey : AccessKey :=
  mkAccessKey (mkModel 0 zeroTime zeroTime None) 0 EmptyString 9 3
              (now + 5 * Hour) 0 zeroTime EmptyString EmptyString EmptyString [].

Definition fresh : Fresh :=
  mkFresh now 555 "0123456789" "012345678901234567890123".

End store.

(** ** Further code of the cited files *)

(** *** Package engine: [BearerTransport] *)

Module BearerTransport.

(** [BearerTransport.RoundTrip]: the headers of the request as the
    wrapped transport receives it. *)
Definition RoundTrip (Token : string) (header : gmap string (list string))
  : gmap string (list string) :=
  if negb (String.eqb Token EmptyString)
  then http.Set_ header "Authorization" ("Bearer " +:+ Token)
  else header.

End BearerTransport.

(** *** Package logging *)

Module logging.

Definition newline : ascii := ascii_of_nat 10.

(** [trimTrailingNewline], on the bytes of [p]. *)
Definition trimTrailingNewline (p : string) : string :=
  let n := String.length p in
  if (0 <? n)%nat
     && match String.get (n - 1) p with
        | Some c => Ascii.eqb c newline
        | None => false
        end
  then String.substring 0 (n - 1) p
  else p.

(** What [logWriter.Write] hands to the logger: a message at the
    writer's level. *)
Record Event := mkEvent {
  level : Z;
  message : string;
}.

(** [logWriter.Write]: the count and error it returns, and the event it
    logs. *)
Definition Write (level : Z) (p : string) : nat * option error * Event :=
  (String.length p, None, mkEvent level (trimTrailingNewline p)).

(** The global logger [L] is the default console logger or one made by
    [newLogger] for a writer. *)
Inductive logger (W : Type) :=
| console
| newLogger (writer : W).
Arguments console {W}.
Arguments newLogger {W} writer.

(** A running test as [PatchLogger] sees it: the global [L], and the
    functions registered with [t.Cleanup], the latest first; each one is
    a function of the global it assigns. *)
Definition PatchLogger {W : Type}
    (st : logger W * list (logger W -> logger W)) (writer : W)
  : logger W * list (logger W -> logger W) :=
  let origL := st.1 in
  (newLogger writer, (fun _ => origL) :: st.2).

(** The end of the test: the registered functions run, the latest
    first. *)
Fixpoint runCleanups {W : Type} (L : logger W)
    (cleanups : list (logger W -> logger W)) : logger W :=
  match cleanups with
  | [] => L
  | f :: rest => runCleanups (f L) rest
  end.

End logging.

(** *** Package data: [AddUserPublicKey] *)

Module user_public_keys.
Import models data.

(** The functions of package data that [AddUserPublicKey] calls and
    that are not among the sources, over the transaction type [Tx] and
    the type [Ident] of the identity [GetIdentity] returns. *)
Record Store (Tx Ident : Type) := mkStore {
  insert : Tx -> UserPublicKey -> option Error * Tx;
  GetIdentity : Tx -> Z -> Error + Ident;
  SSHUsername : Ident -> string;
  SetSSHUsername : Tx -> Ident -> option Error * Tx;
}.
Arguments insert {Tx Ident}.
Arguments GetIdentity {Tx Ident}.
Arguments SSHUsername {Tx Ident}.
Arguments SetSSHUsername {Tx Ident}.

(** [AddUserPublicKey]: the error it returns and the transaction
    afterwards. *)
Definition AddUserPublicKey {Tx Ident : Type} (db : Store Tx Ident) (tx : Tx)
    (key : UserPublicKey) : option Error * Tx :=
  if UserID key =? 0 then (Some (Errorf "a userID is required"), tx)
  else if String.eqb (Fingerprint key) EmptyString
  then (Some (Errorf "fingerprint is required"), tx)
  else if String.eqb (KeyType key) EmptyString
  then (Some (Errorf "key type is required"), tx)
  else
    match insert db tx key with
    | (Some err, tx) => (Some err, tx)
    | (None, tx) =>
        match GetIdentity db tx (UserID key) with
        | inl err => (Some err, tx)
        | inr user =>
            if negb (String.eqb (SSHUsername db user) EmptyString)
            then (None, tx)
            else SetSSHUsername db tx user
        end
    end.

End user_public_keys.

(** *** The comparers of [access_key_test.go] *)

Module access_key_test.

Definition nonZeroString (x y : string) : bool :=
  if String.eqb x EmptyString || String.eqb y EmptyString then false
  else if String.eqb x "<any-string>" || String.eqb y "<any-string>" then true
  else false.

Definition anyValidUID (x y : Z) : bool := (0 <? x) && (0 <? y).

End access_key_test.

(** *** Notions for the statements about the store *)

Module invariants.
Import models data.

(** The update indexes of a table are distinct and none is above the
    sequence value [seq]. *)
Definition indexed (seq : Z) (t : Tables) : Prop :=
  NoDup (map UpdateIndex (grants t))
  ∧ ∀ g, g ∈ grants t -> UpdateIndex g <= seq.

(** The same for the rows a transaction sees and for the rows each of
    its savepoints would bring back. *)
Definition sequenced (tx : WriteTxn) : Prop :=
  indexed (seq_update_index tx) (wrows tx)
  ∧ ∀ sp, sp ∈ savepoints tx -> indexed (seq_update_index tx) sp.2.

(** A destination name without a character that LIKE reads as a
    wildcard or an escape. *)
Fixpoint plain (s : string) : bool :=
  match s with
  | EmptyString => true
  | String c t =>
      negb (Ascii.eqb c "%") && negb (Ascii.eqb c "_") && negb (Ascii.eqb c "\")
      && plain t
  end.

(** The rows [DeleteGrants] is asked to delete, among the live rows of
    the transaction's organization. *)
Definition selected (opts : DeleteGrantsOptions) (g : Grant) : bool :=
  if negb (DelByID opts =? 0) then ID (GModel g) =? DelByID opts
  else if negb (String.eqb (DelBySubject opts) EmptyString)
  then String.eqb (Subject g) (DelBySubject opts)
  else (CreatedBy g =? DelByCreatedBy opts)
       && negb (existsb (Z.eqb (ID (GModel g))) (NotIDs opts)).

(** The rows are in ascending order of id. *)
Definition ascending (l : list Grant) : Prop :=
  StronglySorted (fun g h => ID (GModel g) <= ID (GModel h)) l.

End invariants.

(** *** Further concrete cases *)

Module cases.

(** A cache filled ten minutes ago. *)
Definition staleCache : engine.jwkCache (J := scenario.jose) :=
  engine.mkJwkCache (J := scenario.jose) (Some 1) (scenario.now - 10 * Minute).

(** A request whose token is no JWT. *)
Definition garbage : http.Request :=
  scenario.requestWith {[ "X-Infra-Authorization" := ["Bearer not-a-jwt"] ]}.

(** A request as the middleware hands it on, with a header of the
    client's own. *)
Definition authenticated : http.Request :=
  http.mkRequest (http.mkURL "/proxy/api/v1/pods" EmptyString EmptyString)
                 (<[ "Impersonate-Group" := ["system:masters"] ]>
                    {[ "X-Infra-Authorization" := ["Bearer jwt1"] ]})
                 (Some "alice@x").

(** Options that name the destination and its endpoint, and a cluster
    that can tell neither. *)
Definition configured : engine.Options :=
  engine.mkOptions "registry:443" "prod" "https://10.0.0.1" false "api-key".

Definition silentCluster : kubernetes.Kubernetes :=
  kubernetes.mkKubernetes (Ok "ca") (Err "no endpoint") (Ok "infra")
                          (Err "no name") (Ok "sa-token") (fun _ => None).

(** A token for alice@x that expired thirty seconds before
    [scenario.now], signed by key 1, and a request that carries it. *)
Definition lateClaims : jwt.Claims :=
  jwt.mkClaims "infra" "alice@x" [] (Some 1699999970) (Some 1699999000) None
               EmptyString.

Definition lateJose : Jose :=
  fixtures.symbolicJose
    [("late", fixtures.mkToken 1 lateClaims {[ "email" := jwt.AString "alice@x" ]})].

Definition late : http.Request :=
  scenario.requestWith {[ "X-Infra-Authorization" := ["Bearer late"] ]}.

(** A request whose header is the token of key 1 without the "Bearer "
    prefix. *)
Definition bare : http.Request :=
  scenario.requestWith {[ "X-Infra-Authorization" := ["jwt1"] ]}.

(** A grant of "view" on "prod" to user 3, who has none yet. *)
Definition newGrant : models.Grant :=
  models.mkGrant (models.mkModel 0 zeroTime zeroTime None) 0 "u:3" "view" "prod" 9 0.

(** Delete the grant with id 101. *)
Definition byID101 : data.DeleteGrantsOptions :=
  data.mkDeleteGrantsOptions 101 EmptyString 0 [].

End cases.

(** * Properties *)

(** ** Byte strings *)

Section StringFacts.

Lemma HasPrefix_length (s p : string) :
  strings.HasPrefix s p = true -> (String.length p <= String.length s)%nat.
Proof.
  revert s. induction p as [|c p IH]; intros s Hp; simpl.
  - lia.
  - destruct s as [|d s]; simpl in Hp; [discriminate|].
    apply andb_true_iff in Hp as [_ Hp].
    apply IH in Hp. simpl. lia.
Qed.

Lemma HasPrefix_append (p s : string) : strings.HasPrefix (p +:+ s) p = true.
Proof.
  induction p as [|c p IH]; simpl; [reflexivity|].
  rewrite Ascii.eqb_refl. assumption.
Qed.

Lemma append_empty_l (s : string) : EmptyString +:+ s = s.
Proof. reflexivity. Qed.

Lemma append_assoc (s t u : string) : (s +:+ t) +:+ u = s +:+ (t +:+ u).
Proof.
  induction s as [|c s IH]; [reflexivity|].
  change (String c ((s +:+ t) +:+ u) = String c (s +:+ (t +:+ u))).
  by rewrite IH.
Qed.

(** A prefix is read off the first bytes only. *)
Lemma HasPrefix_append_l (x y p : string) :
  (String.length p <= String.length x)%nat ->
  strings.HasPrefix (x +:+ y) p = strings.HasPrefix x p.
Proof.
  revert x. induction p as [|c p IH]; intros x Hlen; [reflexivity|].
  destruct x as [|d x]; simpl in Hlen; [lia|].
  change (String d x +:+ y) with (String d (x +:+ y)). simpl.
  rewrite IH by lia. reflexivity.
Qed.

Lemma append_cons (c : ascii) (s t : string) :
  String c s +:+ t = String c (s +:+ t).
Proof. reflexivity. Qed.

Lemma length_append (s t : string) :
  String.length (s +:+ t) = (String.length s + String.length t)%nat.
Proof.
  induction s as [|c s IH]; [reflexivity|].
  change (String c s +:+ t) with (String c (s +:+ t)).
  cbn [String.length]. rewrite IH. reflexivity.
Qed.

(** Deleting occurrences never lengthens the string, and the bytes
    skipped are gone. *)
Lemma replaceScan_length (old s : string) (k : nat) :
  (k <= String.length s)%nat ->
  (String.length (strings.replaceScan old EmptyString k s) + k
   <= String.length s)%nat.
Proof.
  revert k. induction s as [|c s IH]; intros k Hk; simpl in *.
  - lia.
  - destruct k as [|k].
    + destruct (strings.HasPrefix (String c s) old) eqn:Hp.
      * apply HasPrefix_length in Hp. rewrite append_empty_l. simpl in *.
        specialize (IH (Nat.pred (String.length old))). lia.
      * simpl. specialize (IH O). lia.
    + specialize (IH k). lia.
Qed.

(** A string in which [old] occurs loses at least one occurrence. *)
Lemma replaceScan_shrinks (old a b : string) (k : nat) :
  old <> EmptyString ->
  (k <= String.length a)%nat ->
  (String.length (strings.replaceScan old EmptyString k (a +:+ old +:+ b))
   + k + String.length old
   <= String.length (a +:+ old +:+ b))%nat.
Proof.
  intros Hold. revert k. induction a as [|c a IH]; intros k Hk.
  - assert (k = O) by (simpl in Hk; lia). subst k.
    destruct old as [|o old]; [congruence|].
    change (EmptyString +:+ String o old +:+ b) with (String o (old +:+ b)).
    cbn [strings.replaceScan].
    change (String o (old +:+ b)) with (String o old +:+ b).
    rewrite HasPrefix_append, append_empty_l. simpl.
    pose proof (replaceScan_length (String o old) (old +:+ b) (String.length old)) as L.
    rewrite length_append in *. lia.
  - change (String c a +:+ old +:+ b) with (String c (a +:+ old +:+ b)).
    cbn [strings.replaceScan]. destruct k as [|k].
    + destruct (strings.HasPrefix (String c (a +:+ old +:+ b)) old) eqn:Hp.
      * rewrite append_empty_l.
        pose proof (replaceScan_length old (a +:+ old +:+ b)
                      (Nat.pred (String.length old))) as L.
        destruct old; [congruence|].
        cbn [String.length Nat.pred] in *.
        rewrite !length_append in *. cbn [String.length] in *. lia.
      * cbn [String.length] in *. specialize (IH O). lia.
    + cbn [String.length] in *. specialize (IH k). lia.
Qed.

(** A string without an occurrence of [old] is left as it is. *)
Lemma replaceScan_absent (old s : string) :
  strings.Contains s old = false ->
  strings.replaceScan old EmptyString O s = s.
Proof.
  induction s as [|c s IH]; intros Hc; [reflexivity|].
  simpl in Hc. apply orb_false_iff in Hc as [Hp Hc].
  cbn [strings.replaceScan]. rewrite Hp, IH; [reflexivity|assumption].
Qed.

End StringFacts.

(** ** The JWT middleware *)

Section Middleware.
Context `{J : Jose}.
Context {St : Type} (getjwk : St -> result (option JSONWebKey) * St).

Lemma jwtMiddleware_checkToken (now : Time) (st : St) (r : http.Request) :
  (let '(h, st') := engine.jwtMiddleware getjwk now st r in (engine.verdict h, st'))
  = engine.checkToken getjwk now st (engine.rawToken r).
Proof.
  unfold engine.jwtMiddleware, engine.checkToken, engine.rawToken.
  destruct (String.eqb _ EmptyString); [reflexivity|].
  destruct (ParseSigned _) as [tok|]; [|reflexivity].
  destruct (getjwk st) as [[[key|]|e] st']; [|reflexivity|reflexivity].
  destruct (TokenClaims tok key) as [[cl out]|]; [|reflexivity].
  destruct (jwt.Validate cl _) as [[]|]; try reflexivity.
  destruct (out !! "email") as [[]|]; reflexivity.
Qed.

(** The middleware answers 401, panics on a nil key, or hands the
    request on; nothing else. *)
Lemma jwtMiddleware_outcomes (now : Time) (st : St) (r : http.Request) :
  (engine.jwtMiddleware getjwk now st r).1 = engine.unauthorized
  ∨ (engine.jwtMiddleware getjwk now st r).1 = engine.expired
  ∨ (∃ tok st',
       engine.rawToken r <> EmptyString
       ∧ ParseSigned (engine.rawToken r) = Some tok
       ∧ getjwk st = (Ok None, st')
       ∧ engine.jwtMiddleware getjwk now st r = (http.Panicked, st'))
  ∨ ∃ tok key cl out email st',
      engine.rawToken r <> EmptyString
      ∧ ParseSigned (engine.rawToken r) = Some tok
      ∧ getjwk st = (Ok (Some key), st')
      ∧ TokenClaims tok key = Some (cl, out)
      ∧ jwt.Validate cl (engine.expectedClaims now) = None
      ∧ out !! "email" = Some (jwt.AString email)
      ∧ engine.jwtMiddleware getjwk now st r
        = (http.Passed (http.mkRequest (http.Url r) (http.Header r) (Some email)),
           st').
Proof.
  unfold engine.jwtMiddleware. fold (engine.rawToken r).
  destruct (String.eqb (engine.rawToken r) EmptyString) eqn:Hraw; [by left|].
  apply String.eqb_neq in Hraw.
  destruct (ParseSigned (engine.rawToken r)) as [tok|] eqn:Hparse; [|by left].
  destruct (getjwk st) as [[key|e] st'] eqn:Hkey; [|by left].
  destruct key as [key|].
  - destruct (TokenClaims tok key) as [[cl out]|] eqn:Hsig; [|by left].
    destruct (jwt.Validate cl _) as [[]|] eqn:Hval;
      try (by left); try (by right; left).
    destruct (out !! "email") as [[email| | | |]|] eqn:Hemail; try (by left).
    right; right; right. exists tok, key, cl, out, email, st'. done.
  - right; right; left. exists tok, st'. done.
Qed.

(** The middleware on a token that parses, with a key at hand. *)
Lemma jwtMiddleware_with_key (now : Time) (st st' : St) (r : http.Request)
    (tok : JSONWebToken) (key : JSONWebKey) :
  engine.rawToken r <> EmptyString ->
  ParseSigned (engine.rawToken r) = Some tok ->
  getjwk st = (Ok (Some key), st') ->
  engine.jwtMiddleware getjwk now st r
  = match TokenClaims tok key with
    | None => (engine.unauthorized, st')
    | Some (cl, out) =>
        match jwt.Validate cl (engine.expectedClaims now) with
        | Some jwt.ErrExpired => (engine.expired, st')
        | Some _ => (engine.unauthorized, st')
        | None =>
            match out !! "email" with
            | Some (jwt.AString email) =>
                (http.Passed
                   (http.mkRequest (http.Url r) (http.Header r) (Some email)),
                 st')
            | _ => (engine.unauthorized, st')
            end
        end
    end.
Proof.
  intros Hraw Hparse Hkey. apply String.eqb_neq in Hraw.
  unfold engine.jwtMiddleware. fold (engine.rawToken r).
  rewrite Hraw, Hparse, Hkey. reflexivity.
Qed.

End Middleware.

(** ** Validation of the registered claims *)

Section Validation.

(** Within the range of [time.Time] a numeric date is its number of
    seconds. *)
Lemma NumericDate_Time_in_range (d : Z) :
  - 2 ^ 63 <= d + 62135596800 < 2 ^ 63 ->
  jwt.NumericDate_Time d = d * Second.
Proof.
  intros Hd. unfold jwt.NumericDate_Time, jwt.wrapInt64, jwt.unixToInternal.
  rewrite Z.mod_small by lia. lia.
Qed.

(** [cl.Validate(jwt.Expected{Issuer: "infra", Time: now})], the checks
    on the fields left unset dropped. *)
Lemma Validate_expected (cl : jwt.Claims) (now : Time) :
  jwt.Validate cl (engine.expectedClaims now)
  = if negb (String.eqb "infra" (jwt.Issuer cl)) then Some jwt.ErrInvalidIssuer
    else if IsZero now then None
    else if match jwt.NotBefore cl with
            | Some nbf => Before (now + jwt.DefaultLeeway) (jwt.NumericDate_Time nbf)
            | None => false
            end
    then Some jwt.ErrNotValidYet
    else if match jwt.Expiry cl with
            | Some exp => After (now - jwt.DefaultLeeway) (jwt.NumericDate_Time exp)
            | None => false
            end
    then Some jwt.ErrExpired
    else if match jwt.IssuedAt cl with
            | Some iat => Before (now + jwt.DefaultLeeway) (jwt.NumericDate_Time iat)
            | None => false
            end
    then Some jwt.ErrIssuedInTheFuture
    else None.
Proof. reflexivity. Qed.

Lemma Validate_wrong_issuer (cl : jwt.Claims) (now : Time) :
  jwt.Issuer cl <> "infra" ->
  jwt.Validate cl (engine.expectedClaims now) = Some jwt.ErrInvalidIssuer.
Proof.
  intros Hiss. rewrite Validate_expected.
  destruct (String.eqb_spec "infra" (jwt.Issuer cl)) as [E|_]; [congruence|].
  reflexivity.
Qed.

(** A date checked with [Before (now + leeway)]. *)
Lemma not_after_leeway (now : Time) (d : option Z) :
  match d with
  | Some t => Before (now + jwt.DefaultLeeway) (jwt.NumericDate_Time t)
  | None => false
  end = false
  ↔ ∀ t, d = Some t -> jwt.NumericDate_Time t <= now + 60 * Second.
Proof.
  unfold Before, jwt.DefaultLeeway, Minute. destruct d as [t|].
  - rewrite Z.ltb_ge. split.
    + intros Hle t' [= <-]. lia.
    + intros Hall. specialize (Hall t eq_refl). lia.
  - split; [intros _ t; discriminate|reflexivity].
Qed.

(** The expiry date, checked with [After (now - leeway)]. *)
Lemma expired_beyond_leeway (now : Time) (d : option Z) :
  match d with
  | Some t => After (now - jwt.DefaultLeeway) (jwt.NumericDate_Time t)
  | None => false
  end = true
  ↔ ∃ t, d = Some t ∧ jwt.NumericDate_Time t < now - 60 * Second.
Proof.
  unfold After, jwt.DefaultLeeway, Minute. destruct d as [t|].
  - rewrite Z.ltb_lt. split.
    + intros Hlt. exists t. split; [reflexivity|lia].
    + intros (t' & [= <-] & Hlt). lia.
  - split; [discriminate|intros (t & Ht & _); discriminate].
Qed.

(** The library reports a token as expired exactly when its issuer is
    the expected one, it is not used more than the leeway of one minute
    before its time, and its expiry lies more than the leeway in the
    past. *)
Lemma Validate_ErrExpired_iff (cl : jwt.Claims) (now : Time) :
  jwt.Validate cl (engine.expectedClaims now) = Some jwt.ErrExpired
  ↔ jwt.Issuer cl = "infra"
    ∧ IsZero now = false
    ∧ (∀ nbf, jwt.NotBefore cl = Some nbf ->
              jwt.NumericDate_Time nbf <= now + 60 * Second)
    ∧ ∃ exp, jwt.Expiry cl = Some exp
             ∧ jwt.NumericDate_Time exp < now - 60 * Second.
Proof.
  rewrite Validate_expected, <- not_after_leeway, <- expired_beyond_leeway.
  destruct (String.eqb_spec "infra" (jwt.Issuer cl)) as [E|E]; cbn [negb].
  - destruct (IsZero now).
    { split; [discriminate|intros (_ & ? & _); discriminate]. }
    destruct (match jwt.NotBefore cl with Some _ => _ | None => _ end).
    { split; [discriminate|intros (_ & _ & ? & _); discriminate]. }
    destruct (match jwt.Expiry cl with Some _ => _ | None => _ end).
    { split; [done|reflexivity]. }
    destruct (match jwt.IssuedAt cl with Some _ => _ | None => _ end);
      (split; [discriminate|intros (_ & _ & _ & ?); discriminate]).
  - split; [discriminate|intros [? _]; congruence].
Qed.

(** The library accepts the registered claims exactly when the issuer
    is the expected one and none of the three dates is off by more than
    the leeway. *)
Lemma Validate_None_iff (cl : jwt.Claims) (now : Time) :
  jwt.Validate cl (engine.expectedClaims now) = None
  ↔ jwt.Issuer cl = "infra"
    ∧ (IsZero now = true
       ∨ (∀ nbf, jwt.NotBefore cl = Some nbf ->
                 jwt.NumericDate_Time nbf <= now + 60 * Second)
         ∧ (∀ exp, jwt.Expiry cl = Some exp ->
                   now - 60 * Second <= jwt.NumericDate_Time exp)
         ∧ (∀ iat, jwt.IssuedAt cl = Some iat ->
                   jwt.NumericDate_Time iat <= now + 60 * Second)).
Proof.
  assert ((∀ exp, jwt.Expiry cl = Some exp ->
                  now - 60 * Second <= jwt.NumericDate_Time exp)
          ↔ match jwt.Expiry cl with
            | Some exp => After (now - jwt.DefaultLeeway) (jwt.NumericDate_Time exp)
            | None => false
            end = false) as ->.
  { unfold After, jwt.DefaultLeeway, Minute. destruct (jwt.Expiry cl) as [t|].
    - rewrite Z.ltb_ge. split.
      + intros Hall. specialize (Hall t eq_refl). lia.
      + intros Hle t' [= <-]. lia.
    - split; [reflexivity|intros _ t; discriminate]. }
  rewrite Validate_expected, <- !not_after_leeway.
  destruct (String.eqb_spec "infra" (jwt.Issuer cl)) as [E|E]; cbn [negb].
  - destruct (IsZero now).
    { split; [intros _; split; [done|by left]|reflexivity]. }
    destruct (match jwt.NotBefore cl with Some _ => _ | None => _ end).
    { split; [discriminate|intros [_ [?|(? & _)]]; discriminate]. }
    destruct (match jwt.Expiry cl with Some _ => _ | None => _ end).
    { split; [discriminate|intros [_ [?|(_ & ? & _)]]; discriminate]. }
    destruct (match jwt.IssuedAt cl with Some _ => _ | None => _ end).
    { split; [discriminate|intros [_ [?|(_ & _ & ?)]]; discriminate]. }
    split; [intros _; split; [done|by right]|reflexivity].
  - split; [discriminate|intros [? _]; congruence].
Qed.

End Validation.

(** ** Failure semantics of the engine proxy's JWT validation *)

Section FailClosed.
Context `{J : Jose}.
Context {St : Type} (getjwk : St -> result (option JSONWebKey) * St).

(** C5, as the code has it.  The middleware hands a request on only
    when every check passed: token present and parsed, key obtained,
    signature verified by that key, registered claims valid, email
    claim a string.  A missing or unparsable token, a failure to obtain
    the key, a signature the key does not verify, a wrong issuer and a
    missing email claim give 401 "unauthorized".  A verified token gives
    401 "expired" exactly when its issuer is "infra", it is not used
    more than a minute before its not-before date, and its expiry lies
    more than one minute, the library's leeway, before the current
    time: a token that expired within the last minute is still handed
    on.  With a nil key and no error from [getjwk] the handler panics,
    and hands nothing on. *)
Theorem jwt_validation_fails_closed (now : Time) (st : St) (r : http.Request) :
  let answer := (engine.jwtMiddleware getjwk now st r).1 in
  (answer = http.Replied 401 "unauthorized"
   ∨ answer = http.Replied 401 "expired"
   ∨ (answer = http.Panicked
      ∧ ∃ tok st', ParseSigned (engine.rawToken r) = Some tok
                   ∧ getjwk st = (Ok None, st'))
   ∨ ∃ tok key cl out email st',
       engine.rawToken r <> EmptyString
       ∧ ParseSigned (engine.rawToken r) = Some tok
       ∧ getjwk st = (Ok (Some key), st')
       ∧ TokenClaims tok key = Some (cl, out)
       ∧ jwt.Issuer cl = "infra"
       ∧ (IsZero now = true
          ∨ (∀ nbf, jwt.NotBefore cl = Some nbf ->
                    jwt.NumericDate_Time nbf <= now + 60 * Second)
            ∧ (∀ exp, jwt.Expiry cl = Some exp ->
                      now - 60 * Second <= jwt.NumericDate_Time exp)
            ∧ (∀ iat, jwt.IssuedAt cl = Some iat ->
                      jwt.NumericDate_Time iat <= now + 60 * Second))
       ∧ out !! "email" = Some (jwt.AString email)
       ∧ answer = http.Passed (http.mkRequest (http.Url r) (http.Header r)
                                              (Some email)))
  ∧ (engine.rawToken r = EmptyString -> answer = http.Replied 401 "unauthorized")
  ∧ (ParseSigned (engine.rawToken r) = None -> answer = http.Replied 401 "unauthorized")
  ∧ (∀ e st', getjwk st = (Err e, st') -> answer = http.Replied 401 "unauthorized")
  ∧ (∀ tok st',
       engine.rawToken r <> EmptyString ->
       ParseSigned (engine.rawToken r) = Some tok ->
       getjwk st = (Ok None, st') ->
       answer = http.Panicked)
  ∧ (∀ tok key st',
       ParseSigned (engine.rawToken r) = Some tok ->
       getjwk st = (Ok (Some key), st') ->
       TokenClaims tok key = None ->
       answer = http.Replied 401 "unauthorized")
  ∧ (∀ tok key st' cl out,
       engine.rawToken r <> EmptyString ->
       ParseSigned (engine.rawToken r) = Some tok ->
       getjwk st = (Ok (Some key), st') ->
       TokenClaims tok key = Some (cl, out) ->
       (jwt.Issuer cl <> "infra" -> answer = http.Replied 401 "unauthorized")
       ∧ (answer = http.Replied 401 "expired"
          ↔ jwt.Issuer cl = "infra"
            ∧ IsZero now = false
            ∧ (∀ nbf, jwt.NotBefore cl = Some nbf ->
                      jwt.NumericDate_Time nbf <= now + 60 * Second)
            ∧ ∃ exp, jwt.Expiry cl = Some exp
                     ∧ jwt.NumericDate_Time exp < now - 60 * Second)
       ∧ (jwt.Issuer cl = "infra" ->
          IsZero now = true
          ∨ (∀ nbf, jwt.NotBefore cl = Some nbf ->
                    jwt.NumericDate_Time nbf <= now + 60 * Second)
            ∧ (∀ exp, jwt.Expiry cl = Some exp ->
                      now - 60 * Second <= jwt.NumericDate_Time exp)
            ∧ (∀ iat, jwt.IssuedAt cl = Some iat ->
                      jwt.NumericDate_Time iat <= now + 60 * Second) ->
          (∀ email, out !! "email" = Some (jwt.AString email) ->
                    answer = http.Passed (http.mkRequest (http.Url r) (http.Header r)
                                                         (Some email)))
          ∧ ((∀ email, out !! "email" <> Some (jwt.AString email)) ->
             answer = http.Replied 401 "unauthorized")))
  ∧ (∀ d, - 2 ^ 63 <= d + 62135596800 < 2 ^ 63 ->
          jwt.NumericDate_Time d = d * Second).
Proof.
  intros answer. subst answer.
  split; [|split; [|split; [|split; [|split; [|split; [|split]]]]]].
  - destruct (jwtMiddleware_outcomes getjwk now st r)
      as [H|[H|[(tok & st' & _ & Hp & Hk & H)
               |(tok & key & cl & out & email & st' & ? & ? & ? & ? & Hval & ? & H)]]].
    + left. exact H.
    + right; left. exact H.
    + right; right; left. rewrite H. split; [reflexivity|]. by exists tok, st'.
    + right; right; right. exists tok, key, cl, out, email, st'.
      apply Validate_None_iff in Hval as [Hiss Htimes].
      rewrite H. done.
  - intros Hraw. unfold engine.jwtMiddleware. fold (engine.rawToken r).
    rewrite Hraw. reflexivity.
  - intros Hparse. unfold engine.jwtMiddleware. fold (engine.rawToken r).
    rewrite Hparse. destruct (String.eqb _ _); reflexivity.
  - intros e st' Hkey. unfold engine.jwtMiddleware. fold (engine.rawToken r).
    destruct (String.eqb _ _); [reflexivity|].
    destruct (ParseSigned _); [|reflexivity].
    rewrite Hkey. reflexivity.
  - intros tok st' Hraw Hparse Hkey. apply String.eqb_neq in Hraw.
    unfold engine.jwtMiddleware. fold (engine.rawToken r).
    rewrite Hraw, Hparse, Hkey. reflexivity.
  - intros tok key st' Hparse Hkey Hsig.
    unfold engine.jwtMiddleware. fold (engine.rawToken r).
    destruct (String.eqb _ _); [reflexivity|].
    rewrite Hparse, Hkey, Hsig. reflexivity.
  - intros tok key st' cl out Hraw Hparse Hkey Hsig.
    rewrite (jwtMiddleware_with_key getjwk now st st' r tok key Hraw Hparse Hkey), Hsig.
    split; [|split; [|intros Hiss Htimes; split]].
    + intros Hiss. rewrite (Validate_wrong_issuer _ _ Hiss). reflexivity.
    + rewrite <- Validate_ErrExpired_iff.
      destruct (jwt.Validate cl _) as [[]|]; cbn [fst];
        try (split; [discriminate|discriminate]).
      * split; reflexivity.
      * destruct (out !! "email") as [[]|]; split; discriminate.
    + intros email Hemail.
      rewrite (proj2 (Validate_None_iff cl now) (conj Hiss Htimes)), Hemail.
      reflexivity.
    + intros Hemail.
      rewrite (proj2 (Validate_None_iff cl now) (conj Hiss Htimes)).
      destruct (out !! "email") as [[email| | | |]|]; try reflexivity.
      by destruct (Hemail email).
  - apply NumericDate_Time_in_range.
Qed.

End FailClosed.

(** ** How the token is read from the header *)

Section BearerPrefix.
Context `{J : Jose}.
Context {St : Type} (getjwk : St -> result (option JSONWebKey) * St).

Lemma ReplaceAll_Bearer_prefix (v : string) :
  strings.ReplaceAll ("Bearer " +:+ v) "Bearer " EmptyString
  = strings.ReplaceAll v "Bearer " EmptyString.
Proof.
  unfold strings.ReplaceAll. cbn [String.eqb].
  rewrite !append_cons, append_empty_l. reflexivity.
Qed.

Lemma ReplaceAll_Bearer_absent (v : string) :
  strings.Contains v "Bearer " = false ->
  strings.ReplaceAll v "Bearer " EmptyString = v.
Proof.
  intros Hc. unfold strings.ReplaceAll. cbn [String.eqb].
  apply replaceScan_absent. exact Hc.
Qed.

Lemma ReplaceAll_Bearer_shrinks (a b : string) :
  (String.length (strings.ReplaceAll (a +:+ "Bearer " +:+ b) "Bearer " EmptyString) + 7
   <= String.length (a +:+ "Bearer " +:+ b))%nat.
Proof.
  unfold strings.ReplaceAll. cbn [String.eqb].
  pose proof (replaceScan_shrinks "Bearer " a b O) as L.
  cbn [String.length] in L. rewrite Nat.add_0_r in L.
  apply L; [discriminate|lia].
Qed.

(** The first occurrence is cut out and the scan goes on behind it. *)
Lemma ReplaceAll_Bearer_first (a b : string) :
  strings.Contains (a +:+ "Bearer") "Bearer " = false ->
  strings.ReplaceAll (a +:+ "Bearer " +:+ b) "Bearer " EmptyString
  = a +:+ strings.ReplaceAll b "Bearer " EmptyString.
Proof.
  unfold strings.ReplaceAll. cbn [String.eqb].
  induction a as [|c a IH]; intros Hc.
  - rewrite !append_empty_l, !append_cons, append_empty_l. reflexivity.
  - rewrite append_cons in Hc. cbn [strings.Contains] in Hc.
    apply orb_false_iff in Hc as [Hp Hc].
    change (String c a +:+ "Bearer " +:+ b) with (String c (a +:+ "Bearer " +:+ b)).
    change (String c a +:+ strings.replaceScan "Bearer " EmptyString 0 b)
      with (String c (a +:+ strings.replaceScan "Bearer " EmptyString 0 b)).
    cbn [strings.replaceScan].
    assert (strings.HasPrefix (String c (a +:+ "Bearer " +:+ b)) "Bearer " = false)
      as ->.
    { etrans; [|exact Hp].
      change ("Bearer " +:+ b) with ("Bearer" +:+ (" " +:+ b)).
      rewrite <- append_assoc.
      change (String c ((a +:+ "Bearer") +:+ " " +:+ b))
        with (String c (a +:+ "Bearer") +:+ " " +:+ b).
      apply HasPrefix_append_l.
      change (String c (a +:+ "Bearer")) with (String c a +:+ "Bearer").
      rewrite length_append. cbn. lia. }
    rewrite IH by exact Hc. reflexivity.
Qed.

Lemma rawToken_same_verdict (now : Time) (st : St) (r r' : http.Request) :
  engine.rawToken r' = engine.rawToken r ->
  (engine.verdict (engine.jwtMiddleware getjwk now st r').1,
   (engine.jwtMiddleware getjwk now st r').2)
  = (engine.verdict (engine.jwtMiddleware getjwk now st r).1,
     (engine.jwtMiddleware getjwk now st r).2).
Proof.
  intros Hraw.
  pose proof (jwtMiddleware_checkToken getjwk now st r) as H.
  pose proof (jwtMiddleware_checkToken getjwk now st r') as H'.
  destruct (engine.jwtMiddleware getjwk now st r) as [h s].
  destruct (engine.jwtMiddleware getjwk now st r') as [h' s'].
  cbn [fst snd]. rewrite H, H', Hraw. reflexivity.
Qed.

(** C10.  The token is the value of [X-Infra-Authorization] with every
    occurrence of "Bearer " deleted: a value without an occurrence is
    parsed as it stands, so that a bare JWT that parses, is verified by
    the key and validates is handed on with its email, and is answered
    401 when the key does not verify it or its claims do not validate;
    from a value with an occurrence the first one is cut out and the
    rest goes through the same scan, so that the string parsed is
    shorter than the value by at least seven bytes; an empty outcome (a
    missing or empty header, or nothing but the prefix) and one that
    does not parse are answered with 401.  The middleware's verdict
    depends on the request only through that string, so a value is
    judged alike with and without the "Bearer " prefix. *)
Theorem token_is_header_without_Bearer (now : Time) (st : St) (r : http.Request) :
  let header := http.Get (http.Header r) "X-Infra-Authorization" in
  (strings.Contains header "Bearer " = false -> engine.rawToken r = header)
  ∧ (∀ a b,
       header = a +:+ "Bearer " +:+ b ->
       strings.Contains (a +:+ "Bearer") "Bearer " = false ->
       engine.rawToken r = a +:+ strings.ReplaceAll b "Bearer " EmptyString)
  ∧ (∀ a b,
       header = a +:+ "Bearer " +:+ b ->
       (String.length (engine.rawToken r) + 7 <= String.length header)%nat)
  ∧ (http.Header r !! "X-Infra-Authorization" = None -> engine.rawToken r = EmptyString)
  ∧ (header = EmptyString ∨ header = "Bearer " -> engine.rawToken r = EmptyString)
  ∧ (engine.rawToken r = EmptyString ->
     engine.jwtMiddleware getjwk now st r = (http.Replied 401 "unauthorized", st))
  ∧ (ParseSigned (engine.rawToken r) = None ->
     engine.jwtMiddleware getjwk now st r = (http.Replied 401 "unauthorized", st))
  ∧ (∀ tok key st',
       engine.rawToken r <> EmptyString ->
       ParseSigned (engine.rawToken r) = Some tok ->
       getjwk st = (Ok (Some key), st') ->
       (TokenClaims tok key = None ->
        engine.jwtMiddleware getjwk now st r = (http.Replied 401 "unauthorized", st'))
       ∧ (∀ cl out e,
            TokenClaims tok key = Some (cl, out) ->
            jwt.Validate cl (engine.expectedClaims now) = Some e ->
            engine.jwtMiddleware getjwk now st r
            = (http.Replied 401 (if e is jwt.ErrExpired then "expired"
                                 else "unauthorized"), st'))
       ∧ (∀ cl out email,
            TokenClaims tok key = Some (cl, out) ->
            jwt.Validate cl (engine.expectedClaims now) = None ->
            out !! "email" = Some (jwt.AString email) ->
            engine.jwtMiddleware getjwk now st r
            = (http.Passed (http.mkRequest (http.Url r) (http.Header r) (Some email)),
               st')))
  ∧ (∀ tok key cl out email st',
       header <> EmptyString ->
       strings.Contains header "Bearer " = false ->
       ParseSigned header = Some tok ->
       getjwk st = (Ok (Some key), st') ->
       TokenClaims tok key = Some (cl, out) ->
       jwt.Validate cl (engine.expectedClaims now) = None ->
       out !! "email" = Some (jwt.AString email) ->
       engine.jwtMiddleware getjwk now st r
       = (http.Passed (http.mkRequest (http.Url r) (http.Header r) (Some email)),
          st'))
  ∧ (∀ r', engine.rawToken r' = engine.rawToken r ->
           (engine.verdict (engine.jwtMiddleware getjwk now st r').1,
            (engine.jwtMiddleware getjwk now st r').2)
           = (engine.verdict (engine.jwtMiddleware getjwk now st r).1,
              (engine.jwtMiddleware getjwk now st r).2))
  ∧ (∀ r',
       http.Get (http.Header r') "X-Infra-Authorization" = "Bearer " +:+ header ->
       (engine.verdict (engine.jwtMiddleware getjwk now st r').1,
        (engine.jwtMiddleware getjwk now st r').2)
       = (engine.verdict (engine.jwtMiddleware getjwk now st r).1,
          (engine.jwtMiddleware getjwk now st r).2)).
Proof.
  intros header.
  assert (∀ tok key st',
            engine.rawToken r <> EmptyString ->
            ParseSigned (engine.rawToken r) = Some tok ->
            getjwk st = (Ok (Some key), st') ->
            ∀ cl out email,
              TokenClaims tok key = Some (cl, out) ->
              jwt.Validate cl (engine.expectedClaims now) = None ->
              out !! "email" = Some (jwt.AString email) ->
              engine.jwtMiddleware getjwk now st r
              = (http.Passed (http.mkRequest (http.Url r) (http.Header r) (Some email)),
                 st')) as Haccept.
  { intros tok key st' Hraw Hparse Hkey cl out email Hsig Hval Hemail.
    rewrite (jwtMiddleware_with_key getjwk now st st' r tok key Hraw Hparse Hkey).
    rewrite Hsig, Hval, Hemail. reflexivity. }
  assert (strings.Contains header "Bearer " = false -> engine.rawToken r = header)
    as Hbare.
  { intros Habs. unfold engine.rawToken. apply ReplaceAll_Bearer_absent. exact Habs. }
  split; [exact Hbare|].
  split.
  { intros a b Hab Hfirst. unfold engine.rawToken. fold header. rewrite Hab.
    apply ReplaceAll_Bearer_first. exact Hfirst. }
  split.
  { intros a b Hab. unfold engine.rawToken. fold header. rewrite Hab.
    apply ReplaceAll_Bearer_shrinks. }
  split.
  { intros Hmiss. unfold engine.rawToken, http.Get. rewrite Hmiss. reflexivity. }
  split.
  { intros [H|H]; unfold engine.rawToken; fold header; rewrite H; reflexivity. }
  split.
  { intros Hraw. unfold engine.jwtMiddleware. fold (engine.rawToken r).
    rewrite Hraw. reflexivity. }
  split.
  { intros Hparse. unfold engine.jwtMiddleware. fold (engine.rawToken r).
    rewrite Hparse. destruct (String.eqb _ _); reflexivity. }
  split.
  { intros tok key st' Hraw Hparse Hkey.
    split; [|split].
    - intros Hsig.
      rewrite (jwtMiddleware_with_key getjwk now st st' r tok key Hraw Hparse Hkey).
      rewrite Hsig. reflexivity.
    - intros cl out e Hsig Hval.
      rewrite (jwtMiddleware_with_key getjwk now st st' r tok key Hraw Hparse Hkey).
      rewrite Hsig, Hval. destruct e; reflexivity.
    - apply Haccept; assumption. }
  split.
  { intros tok key cl out email st' Hne Habs Hparse Hkey Hsig Hval Hemail.
    specialize (Hbare Habs).
    apply (Haccept tok key st') with (cl := cl) (out := out);
      try assumption; rewrite Hbare; assumption. }
  split.
  { apply rawToken_same_verdict. }
  intros r' Hv'. apply rawToken_same_verdict.
  unfold engine.rawToken. fold header. rewrite Hv'. apply ReplaceAll_Bearer_prefix.
Qed.

End BearerPrefix.

(** ** Which key verifies a token *)

Section KeySelection.
Context `{J : Jose}.

Lemma getjwk_fresh (fetch : result (list JSONWebKey)) (now : Time)
    (j : engine.jwkCache) :
  engine.cacheFresh j now = true ->
  engine.getjwk fetch now j = (Ok (engine.key j), j).
Proof. unfold engine.getjwk, engine.cacheFresh. intros ->. reflexivity. Qed.

Lemma getjwk_stale (fetch : result (list JSONWebKey)) (now : Time)
    (j : engine.jwkCache) :
  engine.cacheFresh j now = false ->
  engine.getjwk fetch now j
  = match fetch with
    | Err err => (Err err, j)
    | Ok [] => (Err "no jwks provided by registry", j)
    | Ok (k :: _) => (Ok (Some k), engine.mkJwkCache (Some k) now)
    end.
Proof. unfold engine.getjwk, engine.cacheFresh. intros ->. reflexivity. Qed.

(** Only the head of the published key set is looked at. *)
Lemma getjwk_ignores_tail (k : JSONWebKey) (others : list JSONWebKey)
    (now : Time) (j : engine.jwkCache) :
  engine.getjwk (Ok (k :: others)) now j = engine.getjwk (Ok [k]) now j.
Proof. unfold engine.getjwk. destruct (_ && _); reflexivity. Qed.

(** The key set is not fetched at all while the cache is fresh; when
    it cannot be fetched, nobody gets through. *)
Lemma jwks_fetch_failure_is_401 (bearerToken : string) (e : error) (now : Time)
    (j : engine.jwkCache) (r : http.Request) :
  engine.cacheFresh j now = false ->
  (engine.serveProxy bearerToken (Err e) now j r).1
  = http.Replied 401 "unauthorized".
Proof.
  intros Hstale. unfold engine.serveProxy, engine.jwtMiddleware.
  destruct (String.eqb _ _); [reflexivity|].
  destruct (ParseSigned _); [|reflexivity].
  rewrite (getjwk_stale _ _ _ Hstale). reflexivity.
Qed.

(** C1, as the code has it.  One key verifies every token: the cached
    key while the cache is fresh, and otherwise the first key of the key
    set just fetched.  The other published keys have no influence on
    what the proxy does, and a request gets through only if that one
    key verifies its token. *)
Theorem verification_uses_first_key_only (bearerToken : string) (now : Time)
    (j : engine.jwkCache) (r : http.Request) :
  (∀ k others,
     engine.serveProxy bearerToken (Ok (k :: others)) now j r
     = engine.serveProxy bearerToken (Ok [k]) now j r)
  ∧ (∀ fetch r',
       (engine.jwtMiddleware (engine.getjwk fetch now) now j r).1 = http.Passed r' ->
       ∃ tok used,
         ParseSigned (engine.rawToken r) = Some tok
         ∧ is_Some (TokenClaims tok used)
         ∧ if engine.cacheFresh j now then engine.key j = Some used
           else ∃ others, fetch = Ok (used :: others)).
Proof.
  split.
  - intros k others. unfold engine.serveProxy, engine.jwtMiddleware.
    rewrite getjwk_ignores_tail. reflexivity.
  - intros fetch r' Hpass.
    destruct (jwtMiddleware_outcomes (engine.getjwk fetch now) now j r)
      as [H|[H|[(tok & st' & _ & _ & _ & H)
               |(tok & used & cl & out & email & st' & _ & Hp & Hk & Hs & _)]]].
    + rewrite H in Hpass. discriminate.
    + rewrite H in Hpass. discriminate.
    + rewrite H in Hpass. discriminate.
    + exists tok, used. split; [exact Hp|]. split; [by rewrite Hs|].
      destruct (engine.cacheFresh j now) eqn:Hfresh.
      * rewrite (getjwk_fresh _ _ _ Hfresh) in Hk. congruence.
      * rewrite (getjwk_stale _ _ _ Hfresh) in Hk.
        destruct fetch as [[|k others]|e]; try discriminate.
        exists others. congruence.
Qed.

End KeySelection.

(** ** The impersonating proxy handler *)

Section ProxyHandler.

(** What the handler does to a request it hands to the reverse proxy:
    the email becomes the only [Impersonate-User] value,
    [X-Infra-Authorization] is removed, the engine's bearer token is
    appended to the [Authorization] values already there, and a
    non-empty [X-Infra-Query] replaces the query string. *)
Lemma proxyHandler_rewrites (bearerToken email : string) (r r' : http.Request) :
  http.CtxEmail r = Some email ->
  engine.proxyHandler bearerToken r = http.Passed r' ->
  http.Values (http.Header r') "Impersonate-User" = [email]
  ∧ http.Header r' !! "X-Infra-Authorization" = None
  ∧ http.Values (http.Header r') "Authorization"
    = http.Values (http.Header r) "Authorization" ++ ["Bearer " +:+ bearerToken]
  ∧ http.RawQuery (http.Url r')
    = (if String.eqb (http.Get (http.Header r) "X-Infra-Query") EmptyString
       then http.RawQuery (http.Url r)
       else http.Get (http.Header r) "X-Infra-Query").
Proof.
  intros Hemail. unfold engine.proxyHandler, http.StripPrefix. rewrite Hemail.
  cbn [http.Url http.Header http.CtxEmail http.Path http.RawPath http.RawQuery].
  destruct (_ && _); [|discriminate].
  intros [= <-].
  cbn [http.Url http.Header http.CtxEmail http.Path http.RawPath http.RawQuery].
  unfold http.Values, http.Add, http.Set_, http.Del, http.Values.
  repeat split.
  - rewrite lookup_insert_ne by done. rewrite lookup_insert_eq. reflexivity.
  - rewrite lookup_insert_ne by done. rewrite lookup_insert_ne by done.
    apply lookup_delete_eq.
  - rewrite lookup_insert_eq. cbn [default].
    rewrite lookup_insert_ne by done. rewrite lookup_delete_ne by done.
    reflexivity.
  - destruct (String.eqb _ EmptyString); reflexivity.
Qed.

End ProxyHandler.

(** ** The reconciler tick *)

Section Tick.

(** A tick that gets as far as [ListRoles] and is given an error there
    prints the error and goes on to read the roles through the nil
    response. *)
Lemma ListRoles_failure_panics (options : engine.Options)
    (k8s : kubernetes.Kubernetes) (client : v1.V1Client)
    (ca endpoint namespace name saToken : string)
    (res : v1.CreateDestinationResponse) (e : error) :
  kubernetes.CA k8s = Ok ca ->
  (if String.eqb (engine.Endpoint options) EmptyString
   then kubernetes.Endpoint k8s else Ok (engine.Endpoint options)) = Ok endpoint ->
  kubernetes.Namespace k8s = Ok namespace ->
  (if String.eqb (engine.Name options) EmptyString
   then kubernetes.Name k8s else Ok (engine.Name options)) = Ok name ->
  kubernetes.SaToken k8s = Ok saToken ->
  v1.CreateDestination client
    (v1.mkCreateDestinationRequest name ca endpoint namespace saToken)
  = (Some res, None) ->
  v1.ListRoles client (v1.Id res) = (None, Some e) ->
  engine.tick options k8s client = ([e], engine.Panicked).
Proof.
  intros Hca Hep Hns Hname Hsa Hcreate Hroles.
  unfold engine.tick. rewrite Hca, Hep, Hns, Hname, Hsa, Hcreate, Hroles.
  reflexivity.
Qed.

(** Before [ListRoles], every failing step ends the tick with the error
    printed. *)
Lemma early_failure_returns (options : engine.Options)
    (k8s : kubernetes.Kubernetes) (client : v1.V1Client) (e : error) :
  kubernetes.CA k8s = Err e ->
  engine.tick options k8s client = ([e], engine.Returned).
Proof. intros H. unfold engine.tick. rewrite H. reflexivity. Qed.

(** X20.  Apart from a nil response, whatever fails, the tick returns: it
    panics only when [CreateDestination] gives neither a response nor an
    error, or when [ListRoles] gives no response. *)
Lemma tick_panics_only_on_nil_response (options : engine.Options)
    (k8s : kubernetes.Kubernetes) (client : v1.V1Client) :
  (engine.tick options k8s client).2 = engine.Panicked ->
  ∃ request,
    v1.CreateDestination client request = (None, None)
    ∨ ∃ res err, v1.CreateDestination client request = (Some res, None)
                 ∧ v1.ListRoles client (v1.Id res) = (None, err).
Proof.
  unfold engine.tick.
  destruct (kubernetes.CA k8s) as [ca|]; [|discriminate].
  destruct (if String.eqb (engine.Endpoint options) EmptyString
            then kubernetes.Endpoint k8s else Ok (engine.Endpoint options))
    as [endpoint|]; [|discriminate].
  destruct (kubernetes.Namespace k8s) as [namespace|]; [|discriminate].
  destruct (if String.eqb (engine.Name options) EmptyString
            then kubernetes.Name k8s else Ok (engine.Name options))
    as [name|]; [|discriminate].
  destruct (kubernetes.SaToken k8s) as [saToken|]; [|discriminate].
  destruct (v1.CreateDestination client _) as [[res|] [e|]] eqn:Hcreate;
    try discriminate.
  - destruct (v1.ListRoles client (v1.Id res)) as [[roles|] err] eqn:Hroles.
    + destruct (kubernetes.UpdateRoles k8s _); discriminate.
    + intros _. eexists. right. exists res, err. split; [exact Hcreate|exact Hroles].
  - intros _. eexists. left. exact Hcreate.
Qed.

End Tick.

(** ** The engine on concrete requests *)

Section EngineScenarios.

(** C1, counterexample.  The registry publishes keys 1 and 2 and the
    token is signed by key 2: a published key verifies it and its claims
    are valid, yet the proxy answers 401, because only key 1 is tried. *)
Lemma second_published_key_is_not_tried :
  (∃ k, k ∈ scenario.published
        ∧ is_Some (TokenClaims (Jose := scenario.jose) (scenario.aliceToken 2) k))
  ∧ ParseSigned (Jose := scenario.jose) (engine.rawToken scenario.signedBySecondKey)
    = Some (scenario.aliceToken 2)
  ∧ jwt.Validate scenario.aliceClaims (engine.expectedClaims scenario.now) = None
  ∧ (engine.serveProxy (J := scenario.jose) "sa-token" (Ok scenario.published)
       scenario.now scenario.emptyCache scenario.signedBySecondKey).1
    = http.Replied 401 "unauthorized".
Proof.
  split; [|split; [|split]].
  - exists 2. split; [set_solver|]. by eexists.
  - vm_compute. reflexivity.
  - vm_compute. reflexivity.
  - vm_compute. reflexivity.
Qed.

(** C5, counterexample.  The token expired thirty seconds ago; it is
    signed by the key the registry publishes, so the middleware hands
    the request on for alice@x instead of answering 401 "expired". *)
Lemma token_expired_within_the_leeway_is_handed_on :
  jwt.Expiry cases.lateClaims = Some 1699999970
  ∧ jwt.NumericDate_Time 1699999970 + 30 * Second = scenario.now
  ∧ ParseSigned (Jose := cases.lateJose) (engine.rawToken cases.late)
    = Some (fixtures.mkToken 1 cases.lateClaims {[ "email" := jwt.AString "alice@x" ]})
  ∧ (engine.jwtMiddleware (J := cases.lateJose)
       (engine.getjwk (J := cases.lateJose) (Ok [1]) scenario.now)
       scenario.now (engine.mkJwkCache (J := cases.lateJose) None zeroTime)
       cases.late).1
    = http.Passed (http.mkRequest (http.Url cases.late) (http.Header cases.late)
                                  (Some "alice@x")).
Proof. split; [|split; [|split]]; vm_compute; reflexivity. Qed.

(** C10, at a request whose header is a bare JWT: it is parsed as it
    stands, verified and handed on for alice@x. *)
Lemma token_is_header_without_Bearer_witness :
  engine.jwtMiddleware (J := scenario.jose)
    (engine.getjwk (J := scenario.jose) (Ok scenario.published) scenario.now)
    scenario.now scenario.emptyCache cases.bare
  = (http.Passed (http.mkRequest (http.Url cases.bare) (http.Header cases.bare)
                                 (Some "alice@x")),
     engine.mkJwkCache (J := scenario.jose) (Some 1) scenario.now).
Proof.
  pose proof (token_is_header_without_Bearer (J := scenario.jose)
                (engine.getjwk (J := scenario.jose) (Ok scenario.published)
                               scenario.now)
                scenario.now scenario.emptyCache cases.bare) as T.
  cbn zeta in T. destruct T as (_ & _ & _ & _ & _ & _ & _ & _ & Hbare & _).
  apply (Hbare (scenario.aliceToken 1) 1 scenario.aliceClaims
               {[ "email" := jwt.AString "alice@x" ]} "alice@x").
  - discriminate.
  - reflexivity.
  - reflexivity.
  - reflexivity.
  - reflexivity.
  - reflexivity.
  - reflexivity.
Defined.

(** C4, at a request that has an [Authorization] header of its own.
    The token is valid and the request is forwarded for alice@x, but the
    upstream request carries two [Authorization] values, the client's
    first, so the engine's service-account token is not the header the
    upstream reads. *)
Lemma inbound_Authorization_is_forwarded :
  ∃ r',
    (engine.serveProxy (J := scenario.jose) "sa-token" (Ok scenario.published)
       scenario.now scenario.emptyCache scenario.withOwnAuthorization).1
    = http.Passed r'
    ∧ http.Values (http.Header r') "Impersonate-User" = ["alice@x"]
    ∧ http.Header r' !! "X-Infra-Authorization" = None
    ∧ http.Values (http.Header r') "Authorization"
      = ["Bearer client-token"; "Bearer sa-token"]
    ∧ http.Get (http.Header r') "Authorization" = "Bearer client-token".
Proof.
  eexists. split; [vm_compute; reflexivity|].
  repeat split; vm_compute; reflexivity.
Qed.

(** C6, at a registry whose [ListRoles] fails.  The tick prints the
    error and then panics instead of returning. *)
Lemma failed_ListRoles_panics :
  engine.tick scenario.options scenario.cluster scenario.registryWithoutRoles
  = (["rpc error: code = Unavailable"], engine.Panicked).
Proof.
  apply (ListRoles_failure_panics _ _ _ "ca" "https://10.0.0.1" "infra" "prod"
           "sa-token" (v1.mkCreateDestinationResponse "d1"));
    reflexivity.
Qed.

End EngineScenarios.

(** ** Reads of the store *)

Section Reads.
Import models data.
Context `{U : UidPkg}.

Lemma elem_of_insertById (g h : Grant) (l : list Grant) :
  h ∈ insertById g l ↔ h = g ∨ h ∈ l.
Proof.
  induction l as [|x l IH]; simpl.
  - rewrite list_elem_of_singleton, elem_of_nil. tauto.
  - destruct (ID (GModel g) <=? ID (GModel x)).
    + rewrite elem_of_cons. reflexivity.
    + rewrite !elem_of_cons, IH. tauto.
Qed.

(** Ordering the rows neither adds nor drops one. *)
Lemma elem_of_orderById (h : Grant) (l : list Grant) :
  h ∈ orderById l ↔ h ∈ l.
Proof.
  unfold orderById. induction l as [|x l IH]; simpl; [reflexivity|].
  rewrite elem_of_insertById, elem_of_cons, IH. reflexivity.
Qed.

Lemma PaginateQuery_subseteq (p : option Pagination) (l : list Grant) :
  PaginateQuery p l ⊆ l.
Proof.
  destruct p as [p|]; simpl; [|done].
  etrans; [apply subseteq_take|apply subseteq_drop].
Qed.

(** Every row [ListGrants] returns satisfies its WHERE clause. *)
Lemma ListGrants_sound (tx : ReadTxn) (opts : ListGrantsOptions) (g : Grant) :
  g ∈ result_ (ListGrants tx opts) ->
  ∃ subjects, subjectsFor tx opts = inr subjects
              ∧ listWhere tx opts subjects g = true
              ∧ g ∈ grants (rows tx).
Proof.
  unfold ListGrants. destruct (subjectsFor tx opts) as [e|subjects].
  - simpl. intros H. inversion H.
  - intros Hin. exists subjects. split; [reflexivity|].
    assert (g ∈ PaginateQuery (Pagination_ opts)
                  (orderById (filter (λ g, listWhere tx opts subjects g = true)
                                     (grants (rows tx))))) as Hp.
    { destruct (MaxUpdateIndex opts); [|exact Hin].
      destruct (grantsMaxUpdateIndex _ _). exact Hin. }
    apply PaginateQuery_subseteq, elem_of_orderById, list_elem_of_filter in Hp.
    exact Hp.
Qed.

(** Without pagination, every row that satisfies the WHERE clause is
    returned. *)
Lemma ListGrants_complete (tx : ReadTxn) (opts : ListGrantsOptions)
    (subjects : option (list string)) (g : Grant) :
  Pagination_ opts = None ->
  subjectsFor tx opts = inr subjects ->
  listWhere tx opts subjects g = true ->
  g ∈ grants (rows tx) ->
  g ∈ result_ (ListGrants tx opts).
Proof.
  intros Hpag Hsub Hw Hin. unfold ListGrants. rewrite Hsub, Hpag.
  assert (g ∈ orderById (filter (λ g, listWhere tx opts subjects g = true)
                                (grants (rows tx)))) as Hp.
  { apply elem_of_orderById, list_elem_of_filter. done. }
  destruct (MaxUpdateIndex opts); [|exact Hp].
  destruct (grantsMaxUpdateIndex _ _). exact Hp.
Qed.

Lemma listWhere_scoped (tx : ReadTxn) (opts : ListGrantsOptions)
    (subjects : option (list string)) (g : Grant) :
  listWhere tx opts subjects g = true ->
  OrganizationID g = OrganizationID_ tx ∧ DeletedAt (GModel g) = None.
Proof.
  unfold listWhere, live. intros H.
  repeat (apply andb_true_iff in H as [H ?]).
  split; [lia|]. destruct (DeletedAt (GModel g)); [discriminate|reflexivity].
Qed.

Lemma find_scoped (tx : ReadTxn) (p : Grant -> bool) (l : list Grant) (g : Grant) :
  (∀ x, p x = true ->
        (OrganizationID x =? OrganizationID_ tx) && live (GModel x) = true) ->
  find p l = Some g ->
  OrganizationID g = OrganizationID_ tx
  ∧ DeletedAt (GModel g) = None
  ∧ g ∈ l.
Proof.
  intros Hp Hf. apply find_some in Hf as [Hin Hf].
  apply Hp in Hf. apply andb_true_iff in Hf as [Horg Hlive].
  split; [lia|]. split; [|by apply list_elem_of_In].
  unfold live in Hlive. destruct (DeletedAt (GModel g)); [discriminate|reflexivity].
Qed.

Lemma GetGrant_scoped (tx : ReadTxn) (opts : GetGrantOptions) (g : Grant) :
  GetGrant tx opts = inr g ->
  OrganizationID g = OrganizationID_ tx
  ∧ DeletedAt (GModel g) = None
  ∧ g ∈ grants (rows tx).
Proof.
  unfold GetGrant, handleReadError.
  destruct (negb (GetByID opts =? 0)).
  - destruct (find _ _) eqn:Hf; [|discriminate]. intros [= <-].
    eapply find_scoped; [|exact Hf].
    intros x Hx. apply andb_true_iff in Hx as [Hx _]. exact Hx.
  - destruct (negb (String.eqb (GetBySubject opts) EmptyString)); [|discriminate].
    destruct (find _ _) eqn:Hf; [|discriminate]. intros [= <-].
    eapply find_scoped; [|exact Hf].
    intros x Hx.
    apply andb_true_iff in Hx as [Hx _].
    apply andb_true_iff in Hx as [Hx _].
    apply andb_true_iff in Hx as [Hx _]. exact Hx.
Qed.

(** C2, as the code has it.  [GetGrant] and [ListGrants] select on the
    transaction's organization and on [deleted_at IS NULL]: every row
    they return belongs to that organization and is not soft-deleted.
    [userPublicKeys] selects on [deleted_at IS NULL] and the user id
    only: its rows are not soft-deleted and belong to the user asked
    for, and the transaction's organization plays no part in it. *)
Theorem reads_select_live_rows (tx : ReadTxn) :
  (∀ opts g, GetGrant tx opts = inr g ->
             OrganizationID g = OrganizationID_ tx
             ∧ DeletedAt (GModel g) = None
             ∧ g ∈ grants (rows tx))
  ∧ (∀ opts g, g ∈ result_ (ListGrants tx opts) ->
               OrganizationID g = OrganizationID_ tx
               ∧ DeletedAt (GModel g) = None
               ∧ g ∈ grants (rows tx))
  ∧ (∀ userID k, k ∈ userPublicKeys tx userID ↔
                 k ∈ user_public_keys (rows tx)
                 ∧ DeletedAt (KModel k) = None
                 ∧ UserID k = userID)
  ∧ (∀ org userID,
       userPublicKeys (mkReadTxn org (rows tx)) userID = userPublicKeys tx userID).
Proof.
  split; [|split; [|split]].
  - intros opts g. apply GetGrant_scoped.
  - intros opts g Hin.
    apply ListGrants_sound in Hin as (subjects & _ & Hw & Hin).
    apply listWhere_scoped in Hw as [Horg Hlive]. done.
  - intros userID k. unfold userPublicKeys. rewrite list_elem_of_filter.
    unfold live. destruct (DeletedAt (KModel k)).
    + split; [intros [[? _] _]; discriminate|intros (_ & ? & _); discriminate].
    + tauto.
  - intros org userID. reflexivity.
Qed.

End Reads.

(** ** Listing grants *)

Section LikePatterns.
Import models data.

Lemma like_any (s : string) : like "%" s = true.
Proof.
  induction s as [|c s IH]; [reflexivity|].
  change (like "%" (String c s)) with (like EmptyString (String c s) || like "%" s).
  rewrite IH. apply orb_true_r.
Qed.

(** A character that is no wildcard and no escape matches itself. *)
Lemma like_literal (c : ascii) (p s : string) :
  negb (Ascii.eqb c "%") && negb (Ascii.eqb c "_") && negb (Ascii.eqb c "\") = true ->
  like (String c p) s
  = match s with
    | EmptyString => false
    | String d t => Ascii.eqb c d && like p t
    end.
Proof.
  destruct c as [[] [] [] [] [] [] [] []]; cbn; try discriminate; intros _;
    destruct s; reflexivity.
Qed.

Lemma like_plain_prefix (d s : string) :
  invariants.plain d = true ->
  like (d +:+ ".%") s = strings.HasPrefix s (d +:+ ".").
Proof.
  revert s. induction d as [|c d IH]; intros s Hplain.
  - rewrite !append_empty_l. destruct s as [|x t]; [reflexivity|].
    rewrite like_literal by reflexivity. rewrite like_any. reflexivity.
  - cbn [invariants.plain] in Hplain. apply andb_true_iff in Hplain as [Hc Hd].
    rewrite !append_cons, (like_literal c _ s Hc).
    destruct s as [|x t]; [reflexivity|].
    cbn [strings.HasPrefix]. by rewrite IH.
Qed.

End LikePatterns.

Section Listing.
Import models data.
Context `{U : UidPkg}.

Lemma inStrings_elem_of (l : list string) (s : string) :
  inStrings l s = true ↔ s ∈ l.
Proof.
  unfold inStrings. rewrite existsb_exists. split.
  - intros (x & Hin & Heq). apply String.eqb_eq in Heq. subst x.
    by apply list_elem_of_In.
  - intros Hin. exists s. split; [by apply list_elem_of_In|apply String.eqb_refl].
Qed.

Lemma elem_of_map {A B : Type} (f : A -> B) (l : list A) (y : B) :
  y ∈ map f l ↔ ∃ x, y = f x ∧ x ∈ l.
Proof.
  rewrite list_elem_of_In, in_map_iff.
  split; intros (x & H1 & H2); exists x; split;
    try done; by apply list_elem_of_In.
Qed.

Lemma elem_of_groupIDsForUser (tx : ReadTxn) (userID gid : Z) :
  gid ∈ groupIDsForUser tx userID ↔ (userID, gid) ∈ identities_groups (rows tx).
Proof.
  unfold groupIDsForUser. rewrite list_elem_of_In, in_map_iff. split.
  - intros ([u g'] & Heq & Hin). simpl in Heq. subst g'.
    apply list_elem_of_In, list_elem_of_filter in Hin as [Hu Hin].
    simpl in Hu. by subst u.
  - intros Hin. exists (userID, gid). split; [reflexivity|].
    apply list_elem_of_In, list_elem_of_filter. done.
Qed.

(** The WHERE clause, spelled out. *)
Lemma listWhere_true (tx : ReadTxn) (opts : ListGrantsOptions)
    (subjects : option (list string)) (g : Grant) :
  listWhere tx opts subjects g = true ↔
  (DeletedAt (GModel g) = None
   ∧ OrganizationID g = OrganizationID_ tx
   ∧ restWhere opts g = true)
  ∧ match subjects with
    | None => True
    | Some l => Subject g ∈ l
    end.
Proof.
  unfold listWhere, live. rewrite !andb_true_iff, Z.eqb_eq.
  destruct subjects as [l|].
  - rewrite inStrings_elem_of.
    destruct (DeletedAt (GModel g)); [|tauto].
    split; [intros [[[? _] _] _]; discriminate|intros [[? _] _]; discriminate].
  - destruct (DeletedAt (GModel g)); [|tauto].
    split; [intros [[[? _] _] _]; discriminate|intros [[? _] _]; discriminate].
Qed.

(** The conditions on privilege, resource and destination and the
    exclusion of the connector grant, spelled out. *)
Lemma restWhere_true (opts : ListGrantsOptions) (g : Grant) :
  restWhere opts g = true ↔
  (ByPrivileges opts = [] ∨ Privilege g ∈ ByPrivileges opts)
  ∧ (ByResource opts = EmptyString ∨ Resource g = ByResource opts)
  ∧ (ByDestination opts = EmptyString
     ∨ Resource g = ByDestination opts
     ∨ like (ByDestination opts +:+ ".%") (Resource g) = true)
  ∧ (ExcludeConnectorGrant opts = true ->
     Privilege g <> "connector" ∨ Resource g <> "infra").
Proof.
  unfold restWhere, destinationMatches. rewrite !andb_true_iff.
  assert (match ByPrivileges opts with
          | [] => true
          | _ :: _ => inStrings (ByPrivileges opts) (Privilege g)
          end = true
          ↔ ByPrivileges opts = [] ∨ Privilege g ∈ ByPrivileges opts) as Hpriv.
  { rewrite <- inStrings_elem_of. destruct (ByPrivileges opts) as [|p ps].
    - split; [by left|reflexivity].
    - split; [by right|intros [?|?]; [discriminate|done]]. }
  assert (negb (ExcludeConnectorGrant opts)
          || negb (String.eqb (Privilege g) "connector"
                   && String.eqb (Resource g) "infra") = true
          ↔ (ExcludeConnectorGrant opts = true ->
             Privilege g <> "connector" ∨ Resource g <> "infra")) as Hconn.
  { rewrite <- !String.eqb_neq.
    destruct (ExcludeConnectorGrant opts); cbn [negb orb].
    - rewrite negb_true_iff, andb_false_iff. split; [intros ? _; done|auto].
    - split; [discriminate|reflexivity]. }
  destruct (ByPrivileges opts) as [|p ps] eqn:Eprivs.
  - rewrite Hconn, !orb_true_iff, !String.eqb_eq. rewrite <- Hpriv. tauto.
  - rewrite Hconn, !orb_true_iff, !String.eqb_eq. rewrite <- Hpriv. tauto.
Qed.

(** C9, as the code has it.  Without paging, [ListGrants] returns,
    among the live rows of the transaction's organization that pass the
    conditions on privilege, resource and destination (the resource is
    the destination or is LIKE the destination followed by ".%") and the
    exclusion of the connector grant: exactly the rows of the subject
    when a subject is given and [IncludeInheritedFromGroups] is unset;
    the rows of the user and of every group the user belongs to when it
    is set and the subject is a user; and an error, with no rows, when
    it is set and the subject is given and is not a user.  Without a
    subject the option is ignored: the call is not rejected and returns
    the rows of every subject. *)
Theorem ListGrants_inherits_from_groups (tx : ReadTxn) (opts : ListGrantsOptions) :
  Pagination_ opts = None ->
  let passes (g : Grant) : Prop :=
    g ∈ grants (rows tx)
    ∧ DeletedAt (GModel g) = None
    ∧ OrganizationID g = OrganizationID_ tx
    ∧ (ByPrivileges opts = [] ∨ Privilege g ∈ ByPrivileges opts)
    ∧ (ByResource opts = EmptyString ∨ Resource g = ByResource opts)
    ∧ (ByDestination opts = EmptyString
       ∨ Resource g = ByDestination opts
       ∨ like (ByDestination opts +:+ ".%") (Resource g) = true)
    ∧ (ExcludeConnectorGrant opts = true ->
       Privilege g <> "connector" ∨ Resource g <> "infra") in
  (BySubject opts <> EmptyString ->
   IncludeInheritedFromGroups opts = false ->
   ∀ g, g ∈ result_ (ListGrants tx opts) ↔
        passes g ∧ Subject g = BySubject opts)
  ∧ (BySubject opts <> EmptyString ->
     IncludeInheritedFromGroups opts = true ->
     ∀ userID,
       PolymorphicID_ID (BySubject opts) = Ok userID ->
       IsIdentity (BySubject opts) = true ->
       ∀ g, g ∈ result_ (ListGrants tx opts) ↔
            passes g
            ∧ (Subject g = BySubject opts
               ∨ ∃ gid, (userID, gid) ∈ identities_groups (rows tx)
                        ∧ Subject g = NewGroupPolymorphicID gid))
  ∧ (BySubject opts <> EmptyString ->
     IncludeInheritedFromGroups opts = true ->
     (IsIdentity (BySubject opts) = false
      ∨ ∃ e, PolymorphicID_ID (BySubject opts) = Err e) ->
     result_ (ListGrants tx opts) = []
     ∧ err_ (ListGrants tx opts)
       = Some (Errorf "IncludeInheritedFromGroups requires a userId subject"))
  ∧ (BySubject opts = EmptyString ->
     (∀ g, g ∈ result_ (ListGrants tx opts) ↔ passes g)
     ∧ (MaxUpdateIndex opts = false -> err_ (ListGrants tx opts) = None))
  ∧ (invariants.plain (ByDestination opts) = true ->
     ∀ resource,
       like (ByDestination opts +:+ ".%") resource
       = strings.HasPrefix resource (ByDestination opts +:+ ".")).
Proof.
  intros Hpag passes.
  assert (∀ subjects g,
            subjectsFor tx opts = inr subjects ->
            g ∈ result_ (ListGrants tx opts) ↔
            passes g ∧ match subjects with
                       | None => True
                       | Some l => Subject g ∈ l
                       end) as Hchar.
  { intros subjects g Hs. unfold passes. rewrite <- restWhere_true.
    transitivity (g ∈ grants (rows tx) ∧ listWhere tx opts subjects g = true).
    - split.
      + intros Hin. apply ListGrants_sound in Hin as (s' & Hs' & Hw & Hin).
        rewrite Hs in Hs'. injection Hs' as <-. done.
      + intros [Hin Hw]. by apply (ListGrants_complete tx opts subjects).
    - rewrite listWhere_true. tauto. }
  split; [|split; [|split; [|split]]].
  - intros Hsub Hinc g. apply String.eqb_neq in Hsub.
    rewrite (Hchar (Some [BySubject opts])).
    + by rewrite list_elem_of_singleton.
    + unfold subjectsFor. rewrite Hsub, Hinc. reflexivity.
  - intros Hsub Hinc userID Hid Huser g. apply String.eqb_neq in Hsub.
    rewrite (Hchar (Some (BySubject opts
                          :: map NewGroupPolymorphicID (groupIDsForUser tx userID)))).
    + rewrite elem_of_cons, elem_of_map.
      assert ((∃ x, Subject g = NewGroupPolymorphicID x
                    ∧ x ∈ groupIDsForUser tx userID) ↔
              (∃ gid, (userID, gid) ∈ identities_groups (rows tx)
                      ∧ Subject g = NewGroupPolymorphicID gid)) as ->.
      { split; intros (gid & H1 & H2); exists gid.
        - apply elem_of_groupIDsForUser in H2. done.
        - split; [done|]. by apply elem_of_groupIDsForUser. }
      reflexivity.
    + unfold subjectsFor. rewrite Hsub, Hinc, Hid, Huser. reflexivity.
  - intros Hsub Hinc Hbad. apply String.eqb_neq in Hsub. unfold ListGrants.
    assert (subjectsFor tx opts
            = inl (Errorf "IncludeInheritedFromGroups requires a userId subject"))
      as ->; [|done].
    unfold subjectsFor. rewrite Hsub, Hinc. cbn [negb].
    destruct Hbad as [Hbad|[e Hbad]]; rewrite Hbad; [|reflexivity].
    destruct (PolymorphicID_ID (BySubject opts)); reflexivity.
  - intros Hsub.
    assert (subjectsFor tx opts = inr None) as Hnone.
    { unfold subjectsFor. rewrite Hsub. reflexivity. }
    split.
    + intros g. rewrite (Hchar None g Hnone). tauto.
    + intros Hmax. unfold ListGrants. rewrite Hnone, Hmax. reflexivity.
  - intros Hplain resource. by apply like_plain_prefix.
Qed.

End Listing.

(** ** The update-index cursor *)

Section Cursor.
Import models data.
Context `{U : UidPkg}.

Lemma foldr_max_spec (init : Z) (t : list Grant) :
  let m := foldr (λ h m, Z.max (UpdateIndex h) m) init t in
  init <= m
  ∧ (∀ h, h ∈ t -> UpdateIndex h <= m)
  ∧ (m = init ∨ ∃ h, h ∈ t ∧ UpdateIndex h = m).
Proof.
  induction t as [|x t (Hinit & Hall & Hatt)]; simpl.
  - split; [lia|]. split; [|by left]. intros h Hh. inversion Hh.
  - split; [lia|]. split.
    + intros h Hh. apply elem_of_cons in Hh as [->|Hh]; [lia|].
      specialize (Hall h Hh). lia.
    + destruct (Z.max_spec (UpdateIndex x)
                  (foldr (λ h m, Z.max (UpdateIndex h) m) init t)) as [[_ ->]|[_ ->]].
      * destruct Hatt as [->|(h & Hh & Heq)]; [by left|].
        right. exists h. split; [by apply elem_of_cons; right|done].
      * right. exists x. split; [by apply elem_of_cons; left|done].
Qed.

(** [max(update_index)] is an upper bound of the selected rows and is
    the index of one of them. *)
Lemma maxUpdateIndexOf_spec (l : list Grant) (g : Grant) :
  g ∈ l ->
  ∃ m, maxUpdateIndexOf l = Some m
       ∧ (∀ h, h ∈ l -> UpdateIndex h <= m)
       ∧ (∃ h, h ∈ l ∧ UpdateIndex h = m).
Proof.
  destruct l as [|x t]; [intros H; inversion H|]. intros _.
  destruct (foldr_max_spec (UpdateIndex x) t) as (Hinit & Hall & Hatt).
  eexists. split; [reflexivity|]. split.
  - intros h Hh. apply elem_of_cons in Hh as [->|Hh]; [exact Hinit|by apply Hall].
  - destruct Hatt as [Heq|(h & Hh & Heq)].
    + exists x. split; [by apply elem_of_cons; left|by rewrite Heq].
    + exists h. split; [by apply elem_of_cons; right|done].
Qed.

Lemma maxIndexWhere_true (tx : ReadTxn) (resource : string) (g : Grant) :
  maxIndexWhere tx (mkGrantsMaxUpdateIndexOptions resource) g = true ↔
  OrganizationID g = OrganizationID_ tx
  ∧ (resource = EmptyString ∨ Resource g = resource).
Proof.
  unfold maxIndexWhere. cbn [MaxByResource].
  rewrite andb_true_iff, orb_true_iff, Z.eqb_eq, !String.eqb_eq. reflexivity.
Qed.

Lemma grantsMaxUpdateIndex_spec (tx : ReadTxn) (resource : string) (g : Grant) :
  g ∈ grants (rows tx) ->
  OrganizationID g = OrganizationID_ tx ->
  resource = EmptyString ∨ Resource g = resource ->
  ∃ m, grantsMaxUpdateIndex tx (mkGrantsMaxUpdateIndexOptions resource) = (m, None)
       ∧ (∀ h, h ∈ grants (rows tx) ->
               OrganizationID h = OrganizationID_ tx ->
               resource = EmptyString ∨ Resource h = resource ->
               UpdateIndex h <= m)
       ∧ (∃ h, h ∈ grants (rows tx)
               ∧ OrganizationID h = OrganizationID_ tx
               ∧ (resource = EmptyString ∨ Resource h = resource)
               ∧ UpdateIndex h = m).
Proof.
  intros Hin Horg Hres. unfold grantsMaxUpdateIndex.
  destruct (maxUpdateIndexOf_spec
              (filter (λ g, maxIndexWhere tx (mkGrantsMaxUpdateIndexOptions resource) g
                            = true) (grants (rows tx))) g)
    as (m & -> & Hall & (h & Hh & Heq)).
  { apply list_elem_of_filter. split; [|done]. by apply maxIndexWhere_true. }
  exists m. split; [reflexivity|]. split.
  - intros h' Hin' Horg' Hres'. apply Hall, list_elem_of_filter.
    split; [|done]. by apply maxIndexWhere_true.
  - apply list_elem_of_filter in Hh as [Hw Hh].
    apply maxIndexWhere_true in Hw as [? ?]. exists h. done.
Qed.

Lemma ListGrants_max (tx : ReadTxn) (opts : ListGrantsOptions)
    (subjects : option (list string)) :
  MaxUpdateIndex opts = true ->
  subjectsFor tx opts = inr subjects ->
  (maxUpdateIndex_ (ListGrants tx opts), err_ (ListGrants tx opts))
  = (Some (grantsMaxUpdateIndex tx
             (mkGrantsMaxUpdateIndexOptions (ByResource opts))).1,
     (grantsMaxUpdateIndex tx (mkGrantsMaxUpdateIndexOptions (ByResource opts))).2).
Proof.
  intros Hmax Hsub. unfold ListGrants. rewrite Hsub, Hmax.
  destruct (grantsMaxUpdateIndex _ _). reflexivity.
Qed.

(** Whether the subject of a listing is acceptable does not depend on
    the rows. *)
Lemma subjectsFor_rows (tx tx' : ReadTxn) (opts : ListGrantsOptions)
    (subjects : option (list string)) :
  subjectsFor tx opts = inr subjects ->
  ∃ subjects', subjectsFor tx' opts = inr subjects'.
Proof.
  unfold subjectsFor.
  destruct (String.eqb _ _); [by eexists|].
  destruct (negb (IncludeInheritedFromGroups opts)); [by eexists|].
  destruct (PolymorphicID_ID _); [|discriminate].
  destruct (negb (IsIdentity _)); [discriminate|by eexists].
Qed.

(** The soft delete gives every row it changes an index above the
    sequence value it started from. *)
Lemma softDeleteRows_spec (now : Time) (where_ : Grant -> bool) (l : list Grant) :
  ∀ seq,
    seq <= (softDeleteRows now where_ seq l).2
    ∧ ∀ g, g ∈ l -> where_ g = true ->
           ∃ i, seq < i ∧ softDeleted now g i ∈ (softDeleteRows now where_ seq l).1.
Proof.
  induction l as [|x l IH]; intros seq; simpl.
  - split; [lia|]. intros g Hg. inversion Hg.
  - destruct (where_ x) eqn:Hx.
    + destruct (IH (seq + 1)) as [Hle Hrows].
      destruct (softDeleteRows now where_ (seq + 1) l) as [l' seq']. simpl in *.
      split; [lia|]. intros g Hg Hw.
      apply elem_of_cons in Hg as [->|Hg].
      * exists (seq + 1). split; [lia|]. apply elem_of_cons. by left.
      * destruct (Hrows g Hg Hw) as (i & Hi & Hin).
        exists i. split; [lia|]. apply elem_of_cons. by right.
    + destruct (IH seq) as [Hle Hrows].
      destruct (softDeleteRows now where_ seq l) as [l' seq']. simpl in *.
      split; [lia|]. intros g Hg Hw.
      apply elem_of_cons in Hg as [->|Hg]; [congruence|].
      destruct (Hrows g Hg Hw) as (i & Hi & Hin).
      exists i. split; [lia|]. apply elem_of_cons. by right.
Qed.

(** Deleting a live grant by id leaves its row in the table,
    soft-deleted, with an index above the sequence value before. *)
Lemma DeleteGrants_by_id (now : Time) (w : WriteTxn) (g : Grant) :
  inBlock w && failed w = false ->
  g ∈ grants (wrows w) ->
  ID (GModel g) <> 0 ->
  OrganizationID g = wOrganizationID w ->
  DeletedAt (GModel g) = None ->
  let done_ :=
    DeleteGrants now w (mkDeleteGrantsOptions (ID (GModel g)) EmptyString 0 []) in
  done_.1 = None
  ∧ wOrganizationID done_.2 = wOrganizationID w
  ∧ ∃ i, seq_update_index w < i ∧ softDeleted now g i ∈ grants (wrows done_.2).
Proof.
  intros Husable Hin Hid Horg Hlive done_. subst done_.
  unfold DeleteGrants. cbn [DelByID].
  destruct (Z.eqb_spec (ID (GModel g)) 0) as [E|_]; [congruence|]. cbn [negb].
  unfold Exec. rewrite Husable.
  pose proof (softDeleteRows_spec now
                (λ h, (OrganizationID h =? wOrganizationID w) && live (GModel h)
                      && (ID (GModel h) =? ID (GModel g)))
                (grants (wrows w)) (seq_update_index w)) as [_ Hrows].
  destruct (softDeleteRows _ _ _ _) as [gs seq]. cbn in *.
  split; [reflexivity|]. split; [reflexivity|].
  apply (Hrows g Hin).
  unfold live. rewrite Hlive, Horg, !Z.eqb_refl. reflexivity.
Qed.

(** C3, as the code has it.  The [max_update_index] a listing returns
    is the maximum over the rows of the transaction's organization whose
    resource equals [ByResource] (all rows of the organization when
    [ByResource] is empty), soft-deleted rows included; the subject,
    privilege and destination conditions of the listing play no part in
    it.  Deleting a live one of these rows raises the value returned. *)
Theorem max_update_index_scope (tx : ReadTxn) (opts : ListGrantsOptions)
    (subjects : option (list string)) (g : Grant) :
  MaxUpdateIndex opts = true ->
  subjectsFor tx opts = inr subjects ->
  g ∈ grants (rows tx) ->
  OrganizationID g = OrganizationID_ tx ->
  ByResource opts = EmptyString ∨ Resource g = ByResource opts ->
  ∃ m, maxUpdateIndex_ (ListGrants tx opts) = Some m
       ∧ err_ (ListGrants tx opts) = None
       ∧ (∀ h, h ∈ grants (rows tx) ->
               OrganizationID h = OrganizationID_ tx ->
               ByResource opts = EmptyString ∨ Resource h = ByResource opts ->
               UpdateIndex h <= m)
       ∧ (∃ h, h ∈ grants (rows tx)
               ∧ OrganizationID h = OrganizationID_ tx
               ∧ (ByResource opts = EmptyString ∨ Resource h = ByResource opts)
               ∧ UpdateIndex h = m)
       ∧ (∀ now w,
            asReadTxn w = tx ->
            inBlock w && failed w = false ->
            (∀ h, h ∈ grants (rows tx) -> UpdateIndex h <= seq_update_index w) ->
            ID (GModel g) <> 0 ->
            DeletedAt (GModel g) = None ->
            ∃ m', maxUpdateIndex_
                    (ListGrants
                       (asReadTxn
                          (DeleteGrants now w
                             (mkDeleteGrantsOptions (ID (GModel g)) EmptyString 0 [])).2)
                       opts) = Some m'
                  ∧ m < m').
Proof.
  intros Hmax Hsub Hin Horg Hres.
  destruct (grantsMaxUpdateIndex_spec tx (ByResource opts) g Hin Horg Hres)
    as (m & Hm & Hall & Hatt).
  pose proof (ListGrants_max tx opts subjects Hmax Hsub) as Hlist.
  rewrite Hm in Hlist. injection Hlist as Hidx Herr.
  exists m. split; [exact Hidx|]. split; [exact Herr|].
  split; [exact Hall|]. split; [exact Hatt|].
  intros now w Hw Husable Hseq Hid Hlive. subst tx.
  destruct (DeleteGrants_by_id now w g Husable Hin Hid Horg Hlive)
    as (_ & Horg' & i & Hi & Hrow).
  set (w' := (DeleteGrants now w _).2) in *.
  destruct (subjectsFor_rows _ (asReadTxn w') opts subjects Hsub) as [s' Hsub'].
  destruct (grantsMaxUpdateIndex_spec (asReadTxn w') (ByResource opts)
              (softDeleted now g i)) as (m' & Hm' & Hall' & _).
  { exact Hrow. }
  { cbn. rewrite Horg'. exact Horg. }
  { exact Hres. }
  pose proof (ListGrants_max (asReadTxn w') opts s' Hmax Hsub') as Hlist'.
  rewrite Hm' in Hlist'. injection Hlist' as Hidx' _.
  exists m'. split; [exact Hidx'|].
  assert (i <= m') as Hle.
  { apply (Hall' (softDeleted now g i)); [exact Hrow| |exact Hres].
    cbn. rewrite Horg'. exact Horg. }
  destruct Hatt as (h & Hh & _ & _ & <-).
  specialize (Hseq h Hh). lia.
Qed.

End Cursor.

(** ** Creating grants *)

Section Creating.
Import models data.

Lemma existsb_conflicts (g : Grant) (l : list Grant) :
  existsb (conflicts g) l = true ↔ ∃ h, h ∈ l ∧ conflicts g h = true.
Proof.
  rewrite existsb_exists. split; intros (h & Hin & Hc); exists h;
    (split; [by apply list_elem_of_In|done]).
Qed.

(** [CreateGrant] on a usable transaction and a grant with its three
    parts, by whether the insert conflicts. *)
Lemma CreateGrant_run (newID : Z) (now : Time) (tx : WriteTxn) (grant : Grant) :
  inBlock tx && failed tx = false ->
  Subject grant <> EmptyString ->
  Privilege grant <> EmptyString ->
  Resource grant <> EmptyString ->
  CreateGrant newID now tx grant
  = let g := data.inserted newID now tx grant in
    let index := seq_update_index tx + 1 in
    if existsb (conflicts g) (grants (wrows tx))
    then (Some ErrDuplicate,
          mkWriteTxn (wOrganizationID tx) (wrows tx) index (inBlock tx) false
                     (if inBlock tx then ("beforeCreate", wrows tx) :: savepoints tx
                      else savepoints tx),
          g)
    else (None,
          mkWriteTxn (wOrganizationID tx)
                     (withGrants (wrows tx)
                        (grants (wrows tx) ++ [withUpdateIndex g index]))
                     index (inBlock tx) false (savepoints tx),
          g).
Proof.
  intros Husable Hs Hp Hr.
  apply String.eqb_neq in Hs, Hp, Hr.
  unfold CreateGrant. rewrite Hs, Hp, Hr. fold (data.inserted newID now tx grant).
  destruct tx as [org rows seq blk fl sps]. cbn in Husable.
  destruct blk; cbn in Husable; subst; cbn -[conflicts data.inserted].
  - destruct (existsb _ _); reflexivity.
  - destruct (existsb _ _); reflexivity.
Qed.

(** C8.  On a usable transaction, for a live grant with its three
    parts: [CreateGrant] draws the next value of the sequence; when no
    row conflicts, the table gains one row, which carries the grant's
    subject, privilege, resource and creator and the transaction's
    organization, and whose [update_index] is the value drawn, above
    every index the sequence has given out; and when a live grant with
    the same organization, subject, privilege and resource exists,
    [CreateGrant] returns [ErrDuplicate] having rolled back to its
    savepoint, the rows are as before, and the transaction is not in the
    failed state, so that the next insert in it goes through. *)
Theorem CreateGrant_inserts_or_reports_duplicate (newID : Z) (now : Time)
    (tx : WriteTxn) (grant : Grant) :
  inBlock tx && failed tx = false ->
  Subject grant <> EmptyString ->
  Privilege grant <> EmptyString ->
  Resource grant <> EmptyString ->
  DeletedAt (GModel grant) = None ->
  let '(err, tx', g) := CreateGrant newID now tx grant in
  g = data.inserted newID now tx grant
  ∧ (OrganizationID g, Subject g, Privilege g, Resource g, CreatedBy g)
    = (wOrganizationID tx, Subject grant, Privilege grant, Resource grant,
       CreatedBy grant)
  ∧ seq_update_index tx' = seq_update_index tx + 1
  ∧ inBlock tx' && failed tx' = false
  ∧ ((∀ h, h ∈ grants (wrows tx) -> conflicts g h = false) ->
     err = None
     ∧ (∃ row,
          grants (wrows tx') = grants (wrows tx) ++ [row]
          ∧ UpdateIndex row = seq_update_index tx + 1
          ∧ GModel row = GModel g
          ∧ (OrganizationID row, Subject row, Privilege row, Resource row,
             CreatedBy row)
            = (wOrganizationID tx, Subject grant, Privilege grant, Resource grant,
               CreatedBy grant)
          ∧ ∀ h, h ∈ grants (wrows tx) ->
                 UpdateIndex h <= seq_update_index tx ->
                 UpdateIndex h < UpdateIndex row)
     ∧ grants (wrows tx') = grants (wrows tx) ++ [withUpdateIndex g (seq_update_index tx')]
     ∧ savepoints tx' = savepoints tx
     ∧ (∀ h, h ∈ grants (wrows tx) ->
             UpdateIndex h <= seq_update_index tx ->
             UpdateIndex h < seq_update_index tx'))
  ∧ ((∃ h, h ∈ grants (wrows tx)
           ∧ DeletedAt (GModel h) = None
           ∧ OrganizationID h = wOrganizationID tx
           ∧ Subject h = Subject grant
           ∧ Privilege h = Privilege grant
           ∧ Resource h = Resource grant) ->
     err = Some ErrDuplicate
     ∧ wrows tx' = wrows tx
     ∧ (inBlock tx = true ->
        savepoints tx' = ("beforeCreate", wrows tx) :: savepoints tx)
     ∧ ∀ newID' now' other,
         Subject other <> EmptyString ->
         Privilege other <> EmptyString ->
         Resource other <> EmptyString ->
         (∀ h, h ∈ grants (wrows tx) ->
               conflicts (data.inserted newID' now' tx other) h = false) ->
         (CreateGrant newID' now' tx' other).1.1 = None).
Proof.
  intros Husable Hs Hp Hr Hlive.
  rewrite (CreateGrant_run newID now tx grant Husable Hs Hp Hr). cbn zeta.
  destruct (existsb (conflicts (data.inserted newID now tx grant)) (grants (wrows tx)))
    eqn:Hex.
  - split; [reflexivity|]. split; [reflexivity|]. split; [reflexivity|].
    split; [cbn; apply andb_false_r|]. split.
    + intros Hnone. apply existsb_conflicts in Hex as (h & Hin & Hc).
      rewrite (Hnone h Hin) in Hc. discriminate.
    + intros _. split; [reflexivity|]. split; [reflexivity|]. split.
      * cbn. intros ->. reflexivity.
      * intros newID' now' other Hs' Hp' Hr' Hnone.
        rewrite CreateGrant_run; [|cbn; apply andb_false_r|done..].
        cbn [wrows seq_update_index wOrganizationID inBlock].
        assert (existsb (conflicts (data.inserted newID' now'
                  (mkWriteTxn (wOrganizationID tx) (wrows tx)
                     (seq_update_index tx + 1) (inBlock tx) false
                     (if inBlock tx then ("beforeCreate", wrows tx) :: savepoints tx
                      else savepoints tx)) other))
                  (grants (wrows tx)) = false) as ->; [|reflexivity].
        apply not_true_is_false. intros Hc.
        apply existsb_conflicts in Hc as (h & Hin & Hc).
        specialize (Hnone h Hin). unfold data.inserted, setOrg in *. cbn in *.
        congruence.
  - split; [reflexivity|]. split; [reflexivity|]. split; [reflexivity|].
    split; [cbn; apply andb_false_r|]. split.
    + intros _. split; [reflexivity|]. split.
      { exists (withUpdateIndex (data.inserted newID now tx grant)
                                (seq_update_index tx + 1)).
        split; [reflexivity|]. split; [reflexivity|]. split; [reflexivity|].
        split; [reflexivity|]. cbn. intros h _ Hle. lia. }
      split; [reflexivity|].
      split; [reflexivity|]. cbn. intros h _ Hle. lia.
    + intros (h & Hin & Hlive' & Horg & Hsub & Hpriv & Hres).
      assert (existsb (conflicts (data.inserted newID now tx grant)) (grants (wrows tx))
              = true) as Hyes; [|congruence].
      apply existsb_conflicts. exists h. split; [exact Hin|].
      unfold conflicts, sameGrantKey, data.inserted, setOrg, live, OnInsert. cbn.
      rewrite Hlive, Hlive', Horg, Hsub, Hpriv, Hres.
      rewrite Z.eqb_refl, !String.eqb_refl. cbn. apply orb_true_r.
Qed.

End Creating.

(** ** Access keys *)

Section AccessKeyFacts.
Import models data.
Variable secretChecksum : string -> string.

(** A created key is stored without its secret, and the caller gets the
    wire form [keyID.secret]. *)
Lemma CreateAccessKey_stores_no_secret (f : Fresh) (org : Z)
    (table table' : list AccessKey) (key key' : AccessKey) (pair : string) :
  CreateAccessKey secretChecksum f org table key = (inr pair, table', key') ->
  table' = table ++ [withSecret key' EmptyString]
  ∧ pair = KeyID key' +:+ "." +:+ Secret key'
  ∧ String.length (Secret key') = AccessKeySecretLength
  ∧ SecretChecksum key' = secretChecksum (Secret key').
Proof.
  unfold CreateAccessKey.
  destruct (negb (String.length _ =? AccessKeyIDLength)%nat); [discriminate|].
  destruct (negb (String.length _ =? AccessKeySecretLength)%nat) eqn:Hlen;
    [discriminate|].
  apply negb_false_iff, Nat.eqb_eq in Hlen.
  intros [= <- <- <-]. cbn. done.
Qed.

Lemma fetched_key_has_no_secret (f : Fresh) (org : Z)
    (table table' : list AccessKey) (key key' fetched : AccessKey) (pair : string) :
  Forall (λ k, Secret k = EmptyString) table ->
  CreateAccessKey secretChecksum f org table key = (inr pair, table', key') ->
  GetAccessKey org table' (ID (AModel key')) = inr fetched ->
  Secret fetched = EmptyString.
Proof.
  intros Hinv Hcreate Hget.
  apply CreateAccessKey_stores_no_secret in Hcreate as (-> & _).
  unfold GetAccessKey in Hget.
  destruct (find _ (table ++ _)) as [k|] eqn:Hf; [|discriminate].
  injection Hget as <-. apply find_some in Hf as [Hin _].
  apply in_app_or in Hin as [Hin|[<-|[]]]; [|reflexivity].
  rewrite Forall_forall in Hinv. apply Hinv. by apply list_elem_of_In.
Qed.

(** C7, with the extension deadline optional.  A key that was stored
    and is fetched has an empty secret.  [ValidateAccessKey] succeeds
    exactly when the key id names a stored key, the checksum of the
    presented secret equals the stored checksum, the time is before
    [expires_at] and, if the key has an extension deadline, before that;
    otherwise it returns the error of the first of these that fails. *)
Theorem access_key_validation (now : Time) (table : list AccessKey)
    (authnKey : string) :
  let keyID := (cutAtDot authnKey).1 in
  let secret := (cutAtDot authnKey).2 in
  let stored := find (λ k, live (AModel k) && String.eqb (KeyID k) keyID) table in
  let verdict := (ValidateAccessKey secretChecksum now table authnKey).1 in
  (∀ f org key pair table' key' fetched,
     Forall (λ k, Secret k = EmptyString) table ->
     CreateAccessKey secretChecksum f org table key = (inr pair, table', key') ->
     GetAccessKey org table' (ID (AModel key')) = inr fetched ->
     Secret fetched = EmptyString)
  ∧ ((∃ k, verdict = inr k) ↔
     ∃ k, stored = Some k
          ∧ SecretChecksum k = secretChecksum secret
          ∧ now < ExpiresAt k
          ∧ (ExtensionDeadline k = zeroTime ∨ now < ExtensionDeadline k))
  ∧ (stored = None -> verdict = inl ErrAccessKeyNotFound)
  ∧ (∀ k, stored = Some k ->
          SecretChecksum k <> secretChecksum secret ->
          verdict = inl ErrAccessKeyInvalidSecret)
  ∧ (∀ k, stored = Some k ->
          SecretChecksum k = secretChecksum secret ->
          ExpiresAt k <= now ->
          verdict = inl ErrAccessKeyExpired)
  ∧ (∀ k, stored = Some k ->
          SecretChecksum k = secretChecksum secret ->
          now < ExpiresAt k ->
          ExtensionDeadline k <> zeroTime ->
          ExtensionDeadline k <= now ->
          verdict = inl ErrAccessKeyDeadlineExceeded).
Proof.
  intros keyID secret stored verdict.
  split.
  { intros f org key pair table' key' fetched.
    apply fetched_key_has_no_secret. }
  assert (verdict
          = match stored with
            | None => inl ErrAccessKeyNotFound
            | Some k =>
                if negb (String.eqb (SecretChecksum k) (secretChecksum secret))
                then inl ErrAccessKeyInvalidSecret
                else if negb (now <? ExpiresAt k) then inl ErrAccessKeyExpired
                else if negb (IsZero (ExtensionDeadline k))
                        && negb (now <? ExtensionDeadline k)
                then inl ErrAccessKeyDeadlineExceeded
                else if Extension k =? 0 then inr k
                else inr (withExtensionDeadline k
                            (Z.min (now + Extension k) (ExpiresAt k)))
            end) as Hv.
  { subst verdict stored keyID secret. unfold ValidateAccessKey.
    destruct (cutAtDot authnKey) as [kid sec]. cbn [fst snd].
    destruct (find _ _) as [k|]; [|reflexivity].
    repeat (destruct (negb _ && negb _) || destruct (negb _); try reflexivity).
    destruct (Extension k =? 0); reflexivity. }
  rewrite Hv. clear Hv verdict. unfold IsZero.
  split; [|split; [|split; [|split]]].
  - destruct stored as [k|]; [|split; [intros [? [=]]|intros (? & [=] & _)]].
    destruct (String.eqb_spec (SecretChecksum k) (secretChecksum secret)) as [Hc|Hc];
      cbn [negb];
      [|split; [intros [? [=]]|intros (? & [= <-] & ? & _); done]].
    destruct (Z.ltb_spec now (ExpiresAt k)) as [He|He]; cbn [negb];
      [|split; [intros [? [=]]|intros (? & [= <-] & _ & ? & _); lia]].
    destruct (Z.eqb_spec (ExtensionDeadline k) zeroTime) as [Hz|Hz]; cbn [negb andb].
    + split; [intros _|intros _; destruct (Extension k =? 0); by eexists].
      exists k. split; [done|]. split; [done|]. split; [done|]. by left.
    + destruct (Z.ltb_spec now (ExtensionDeadline k)) as [Hd|Hd]; cbn [negb].
      * split; [intros _|intros _; destruct (Extension k =? 0); by eexists].
        exists k. split; [done|]. split; [done|]. split; [done|]. by right.
      * split; [intros [? [=]]|intros (? & [= <-] & _ & _ & [?|?]); [done|lia]].
  - intros ->. reflexivity.
  - intros k -> Hc. apply String.eqb_neq in Hc. rewrite Hc. reflexivity.
  - intros k -> Hc He. apply String.eqb_eq in Hc. rewrite Hc. cbn [negb].
    destruct (Z.ltb_spec now (ExpiresAt k)); [lia|reflexivity].
  - intros k -> Hc He Hz Hd. apply String.eqb_eq in Hc. rewrite Hc. cbn [negb].
    destruct (Z.ltb_spec now (ExpiresAt k)); [|lia]. cbn [negb].
    destruct (Z.eqb_spec (ExtensionDeadline k) zeroTime); [done|]. cbn [negb andb].
    destruct (Z.ltb_spec now (ExtensionDeadline k)); [lia|reflexivity].
Qed.

End AccessKeyFacts.

(** ** The store on concrete tables *)

Section StoreScenarios.
Import models data.

(** C2, counterexample.  A transaction of organization 1 reads the
    public key of alice, a user of organization 2. *)
Lemma public_keys_cross_organizations :
  OrganizationID_ store.tx1 = 1
  ∧ store.aliceKey ∈ userPublicKeys store.tx1 7
  ∧ store.alice ∈ identities (rows store.tx1)
  ∧ ID (IModel store.alice) = UserID store.aliceKey
  ∧ IOrganizationID store.alice = 2.
Proof.
  split; [reflexivity|]. split; [apply list_elem_of_here|].
  split; [apply list_elem_of_here|]. split; reflexivity.
Qed.

(** C3, counterexample.  A listing for destination "prod" returns the
    two grants on "prod", whose indexes are 1 and 2, and 5 as the
    maximum index: the index of the grant on "staging". *)
Lemma max_update_index_ignores_destination :
  result_ (ListGrants (H := fixtures.specUid) store.tx1
             (store.listing EmptyString "prod" false true))
  = [store.viewProd; store.adminProd]
  ∧ maxUpdateIndexOf
      (filter (λ g, (OrganizationID g =? 1) && destinationMatches "prod" g = true)
              (grants store.tables))
    = Some 2
  ∧ maxUpdateIndex_ (ListGrants (H := fixtures.specUid) store.tx1
                       (store.listing EmptyString "prod" false true))
    = Some 5.
Proof. split; [|split]; vm_compute; reflexivity. Qed.

(** The hypotheses of [max_update_index_scope] at the listing above. *)
Lemma max_update_index_scope_witness :
  ∃ m, maxUpdateIndex_ (ListGrants (H := fixtures.specUid) store.tx1
                          (store.listing EmptyString "prod" false true))
       = Some m
       ∧ UpdateIndex store.viewStaging <= m.
Proof.
  destruct (max_update_index_scope (U := fixtures.specUid) store.tx1
              (store.listing EmptyString "prod" false true) None store.viewProd)
    as (m & Hm & _ & Hall & _).
  - reflexivity.
  - reflexivity.
  - apply list_elem_of_further, list_elem_of_here.
  - reflexivity.
  - left. reflexivity.
  - exists m. split; [exact Hm|]. apply Hall.
    + apply list_elem_of_further, list_elem_of_further, list_elem_of_here.
    + reflexivity.
    + left. reflexivity.
Defined.

(** Scenario "grant inheritance": with inheritance the user's and the
    group's grant are listed, without it the user's only. *)
Lemma inherited_listing :
  result_ (ListGrants (H := fixtures.specUid) store.tx1
             (store.listing "u:1" "prod" true false))
  = [store.viewProd; store.adminProd]
  ∧ result_ (ListGrants (H := fixtures.specUid) store.tx1
               (store.listing "u:1" "prod" false false))
    = [store.viewProd]
  ∧ err_ (ListGrants (H := fixtures.specUid) store.tx1
            (store.listing "g:5" "prod" true false))
    = Some (Errorf "IncludeInheritedFromGroups requires a userId subject").
Proof. split; [|split]; vm_compute; reflexivity. Qed.

(** The hypotheses of [ListGrants_inherits_from_groups] at the inherited
    listing above: the grant of group 5 on "prod" is listed for user 1. *)
Lemma ListGrants_inherits_from_groups_witness :
  store.adminProd ∈ result_ (ListGrants (H := fixtures.specUid) store.tx1
                               (store.listing "u:1" "prod" true false)).
Proof.
  pose proof (ListGrants_inherits_from_groups (U := fixtures.specUid) store.tx1
                (store.listing "u:1" "prod" true false) eq_refl) as T.
  cbn zeta in T. destruct T as (_ & Hinh & _).
  assert (BySubject (store.listing "u:1" "prod" true false) <> EmptyString) as Hsub.
  { discriminate. }
  apply (Hinh Hsub eq_refl 1 eq_refl eq_refl store.adminProd).
  split.
  - split; [apply list_elem_of_here|].
    split; [reflexivity|]. split; [reflexivity|].
    split; [by left|]. split; [by left|].
    split; [right; left; reflexivity|discriminate].
  - right. exists 5. split; [apply list_elem_of_here|reflexivity].
Defined.

(** C9, counterexample.  The empty subject is not a user, and an
    inherited listing for it is not rejected: it returns no error and
    the grants of every subject on the destination. *)
Lemma inherited_listing_without_subject_is_not_rejected :
  IsIdentity (UidPkg := fixtures.specUid) EmptyString = false
  ∧ IncludeInheritedFromGroups (store.listing EmptyString "prod" true false) = true
  ∧ err_ (ListGrants (H := fixtures.specUid) store.tx1
            (store.listing EmptyString "prod" true false))
    = None
  ∧ result_ (ListGrants (H := fixtures.specUid) store.tx1
               (store.listing EmptyString "prod" true false))
    = [store.viewProd; store.adminProd].
Proof. split; [|split; [|split]]; vm_compute; reflexivity. Qed.

(** The hypotheses of [CreateGrant_inserts_or_reports_duplicate] at a
    duplicate of a grant of the table: the call reports the duplicate,
    the rows are as before and the sequence has moved on from 7 to 8. *)
Lemma CreateGrant_duplicate_witness :
  (CreateGrant 200 store.now store.wtx1 store.duplicate).1.1 = Some ErrDuplicate
  ∧ wrows (CreateGrant 200 store.now store.wtx1 store.duplicate).1.2 = store.tables
  ∧ seq_update_index (CreateGrant 200 store.now store.wtx1 store.duplicate).1.2 = 8.
Proof.
  pose proof (CreateGrant_inserts_or_reports_duplicate 200 store.now store.wtx1
                store.duplicate eq_refl) as T.
  destruct (CreateGrant 200 store.now store.wtx1 store.duplicate) as [[err tx'] g].
  destruct T as (_ & _ & Hseq & _ & _ & Hdup); try discriminate; try reflexivity.
  destruct Hdup as (Herr & Hrows & _).
  - exists store.viewProd.
    split; [apply list_elem_of_further, list_elem_of_here|]. repeat split.
  - split; [exact Herr|]. split; [exact Hrows|exact Hseq].
Defined.

(** C7, counterexample.  The key of [TestCheckAccessKeySecret] is
    created without an extension deadline; its wire form validates
    although the time is not before its (zero) extension deadline. *)
Lemma key_without_extension_deadline_validates :
  ∃ pair table key k,
    CreateAccessKey store.checksum store.fresh 1 [] store.testKey
    = (inr pair, table, key)
    ∧ (ValidateAccessKey store.checksum store.now table pair).1 = inr k
    ∧ SecretChecksum k = store.checksum (cutAtDot pair).2
    ∧ (store.now <? ExpiresAt k) = true
    ∧ (store.now <? ExtensionDeadline k) = false.
Proof.
  do 4 eexists. split; [vm_compute; reflexivity|].
  split; [vm_compute; reflexivity|]. repeat split.
Qed.

(** The destination condition: the destination itself and its
    namespaces match, other names with the same beginning do not; the
    wildcards of LIKE in a destination name are not escaped. *)
Lemma destination_condition :
  destinationMatches "prod" store.viewProd = true
  ∧ destinationMatches "prod" (store.row 1 1 "u:1" "view" "prod.kube-system" 1) = true
  ∧ destinationMatches "prod" (store.row 1 1 "u:1" "view" "production" 1) = false
  ∧ destinationMatches "a_b" (store.row 1 1 "u:1" "view" "axb.default" 1) = true.
Proof. repeat split. Qed.

(** The other scenarios of the tests: a wrong secret, an expired key and
    a key past its extension deadline. *)
Lemma validation_errors :
  let table ttl deadline :=
    (CreateAccessKey store.checksum store.fresh 1 []
       (mkAccessKey (mkModel 0 zeroTime zeroTime None) 0 EmptyString 9 3
                    (store.now + ttl) 0 deadline EmptyString EmptyString
                    EmptyString [])).1.2 in
  (ValidateAccessKey store.checksum store.now (table (5 * Hour) zeroTime)
     "0123456789.aaaaaaaaaaaaaaaaaaaaaaaa").1
  = inl ErrAccessKeyInvalidSecret
  ∧ (ValidateAccessKey store.checksum store.now (table (-1 * Hour) zeroTime)
       "0123456789.012345678901234567890123").1
    = inl ErrAccessKeyExpired
  ∧ (ValidateAccessKey store.checksum store.now
       (table (1 * Hour) (store.now - 1 * Hour))
       "0123456789.012345678901234567890123").1
    = inl ErrAccessKeyDeadlineExceeded.
Proof. split; [|split]; vm_compute; reflexivity. Qed.

End StoreScenarios.

(** * Further properties *)

(** ** The transport that authenticates the engine to the registry *)

Section Transport.

(** X1.  With a token, [BearerTransport] leaves exactly one
    [Authorization] value, its own, whatever the request carried, and
    touches no other header; without a token it leaves the request as
    it is.  Passing a request through it twice is the same as once. *)
Theorem BearerTransport_sets_one_Authorization (Token : string)
    (header : gmap string (list string)) :
  (Token <> EmptyString ->
   http.Values (BearerTransport.RoundTrip Token header) "Authorization"
   = ["Bearer " +:+ Token]
   ∧ ∀ k, k <> "Authorization" ->
          BearerTransport.RoundTrip Token header !! k = header !! k)
  ∧ (Token = EmptyString -> BearerTransport.RoundTrip Token header = header)
  ∧ BearerTransport.RoundTrip Token (BearerTransport.RoundTrip Token header)
    = BearerTransport.RoundTrip Token header.
Proof.
  unfold BearerTransport.RoundTrip, http.Set_, http.Values.
  destruct (String.eqb_spec Token EmptyString) as [E|E]; cbn [negb].
  - split; [done|]. split; reflexivity.
  - split; [|split; [done|]].
    + intros _. split.
      * rewrite lookup_insert_eq. reflexivity.
      * intros k Hk. by rewrite lookup_insert_ne.
    + apply insert_insert_eq.
Qed.

End Transport.

(** ** The key cache *)

Section KeyCache.
Context `{J : Jose}.

(** X2.  Once a key set has been fetched, every call within the next
    five minutes is answered from the cache: it returns the first key
    of that set whatever a fetch would give, and leaves the cache as it
    is. *)
Theorem getjwk_serves_cached_key (k : JSONWebKey) (others : list JSONWebKey)
    (fetch : result (list JSONWebKey)) (t0 t : Time) (j : engine.jwkCache) :
  IsZero t0 = false ->
  engine.cacheFresh j t0 = false ->
  t < t0 + engine.JWKCacheRefresh ->
  (engine.getjwk (Ok (k :: others)) t0 j).1 = Ok (Some k)
  ∧ engine.getjwk fetch t (engine.getjwk (Ok (k :: others)) t0 j).2
    = (Ok (Some k), (engine.getjwk (Ok (k :: others)) t0 j).2).
Proof.
  intros Hz Hstale Hlt. rewrite (getjwk_stale _ _ _ Hstale). cbn [fst snd].
  split; [reflexivity|].
  apply (getjwk_fresh fetch t (engine.mkJwkCache (Some k) t0)).
  unfold engine.cacheFresh. cbn [engine.lastChecked]. rewrite Hz. cbn [negb andb].
  unfold Before. by apply Z.ltb_lt.
Qed.

(** X3.  A refresh that fails, by an error or by an empty key set,
    returns an error and leaves the cache untouched: the key cached
    before is not served past its five minutes, and the next call
    fetches again. *)
Theorem getjwk_failed_refresh_keeps_cache (fetch : result (list JSONWebKey))
    (now : Time) (j : engine.jwkCache) :
  engine.cacheFresh j now = false ->
  fetch = Ok [] ∨ (∃ e, fetch = Err e) ->
  ∃ e, engine.getjwk fetch now j = (Err e, j).
Proof.
  intros Hstale Hfail. rewrite (getjwk_stale _ _ _ Hstale).
  destruct Hfail as [->|[e ->]]; by eexists.
Qed.

(** X4.  A request without a token, or with one that does not parse, is
    answered before the key is asked for: the state behind [getjwk] is
    as before, and with the engine's cache no key set is fetched. *)
Theorem rejected_before_the_key_is_fetched {St : Type}
    (getjwk : St -> result (option JSONWebKey) * St)
    (now : Time) (st : St) (r : http.Request) :
  engine.rawToken r = EmptyString ∨ ParseSigned (engine.rawToken r) = None ->
  engine.jwtMiddleware getjwk now st r = (http.Replied 401 "unauthorized", st)
  ∧ ∀ bearerToken fetch j,
      engine.serveProxy bearerToken fetch now j r
      = (http.Replied 401 "unauthorized", j).
Proof.
  intros Hbad.
  assert (∀ (S' : Type) (g : S' -> result (option JSONWebKey) * S') (s : S'),
            engine.jwtMiddleware g now s r = (http.Replied 401 "unauthorized", s))
    as Hmw.
  { intros S' g s. unfold engine.jwtMiddleware. fold (engine.rawToken r).
    destruct Hbad as [->|Hp]; [reflexivity|].
    rewrite Hp. destruct (String.eqb _ _); reflexivity. }
  split; [apply Hmw|].
  intros bearerToken fetch j. unfold engine.serveProxy. rewrite Hmw. reflexivity.
Qed.

End KeyCache.

(** ** What the proxy handler forwards *)

Section Forwarding.

Lemma HasPrefix_TrimPrefix (s p : string) :
  strings.HasPrefix s p = true ->
  s = p +:+ strings.dropBytes (String.length p) s.
Proof.
  revert s. induction p as [|c p IH]; intros s Hp; [reflexivity|].
  destruct s as [|d s]; [discriminate|]. cbn in Hp.
  apply andb_true_iff in Hp as [Hc Hp]. apply Ascii.eqb_eq in Hc. subst d.
  rewrite append_cons. cbn [String.length strings.dropBytes]. f_equal. by apply IH.
Qed.

(** A request passes [http.StripPrefix] only with the prefix on its
    path, and loses it. *)
Lemma StripPrefix_passed (prefix : string) (r r' : http.Request) :
  http.StripPrefix prefix r = http.Passed r' ->
  http.Path (http.Url r) = prefix +:+ http.Path (http.Url r')
  ∧ http.RawQuery (http.Url r') = http.RawQuery (http.Url r)
  ∧ http.Header r' = http.Header r
  ∧ http.CtxEmail r' = http.CtxEmail r.
Proof.
  unfold http.StripPrefix, strings.TrimPrefix.
  destruct (strings.HasPrefix (http.Path (http.Url r)) prefix) eqn:Hp.
  - destruct (_ && _); [|discriminate]. intros [= <-]. cbn.
    split; [by apply HasPrefix_TrimPrefix|done].
  - rewrite Nat.ltb_irrefl. cbn [andb]. discriminate.
Qed.

(** X5.  A request the handler hands to the reverse proxy came with an
    email in its context and with a path under [/proxy], which it
    loses; every header other than [X-Infra-Authorization],
    [Impersonate-User] and [Authorization] is handed to the reverse
    proxy as the client sent it.  What the reverse proxy does to the
    request on its way to the upstream (it drops the hop-by-hop headers
    and extends [X-Forwarded-For]) is not part of the handler. *)
Theorem proxyHandler_forwards_the_rest (bearerToken : string) (r r' : http.Request) :
  engine.proxyHandler bearerToken r = http.Passed r' ->
  (∃ email, http.CtxEmail r = Some email ∧ http.CtxEmail r' = Some email)
  ∧ http.Path (http.Url r) = "/proxy" +:+ http.Path (http.Url r')
  ∧ ∀ k, k <> "X-Infra-Authorization" ->
         k <> "Impersonate-User" ->
         k <> "Authorization" ->
         http.Header r' !! k = http.Header r !! k.
Proof.
  unfold engine.proxyHandler.
  destruct (http.CtxEmail r) as [email|] eqn:Hemail; [|discriminate].
  intros Hpass. apply StripPrefix_passed in Hpass as (Hpath & _ & Hhdr & Hctx).
  cbn [http.Url http.Header http.CtxEmail] in *.
  split; [exists email; by rewrite Hctx|]. split.
  - rewrite <- Hpath. by destruct (negb _).
  - intros k H1 H2 H3. rewrite Hhdr. unfold http.Add, http.Set_, http.Del.
    rewrite lookup_insert_ne by done. rewrite lookup_insert_ne by done.
    by rewrite lookup_delete_ne.
Qed.

(** X6.  The handler forwards nothing without an email in the context
    (401), nor a path that is not under [/proxy] (404). *)
Theorem proxyHandler_answers_itself (bearerToken : string) (r : http.Request) :
  (http.CtxEmail r = None ->
   engine.proxyHandler bearerToken r = http.Replied 401 "unauthorized")
  ∧ (∀ email,
       http.CtxEmail r = Some email ->
       strings.HasPrefix (http.Path (http.Url r)) "/proxy" = false ->
       engine.proxyHandler bearerToken r = http.Replied 404 "404 page not found").
Proof.
  unfold engine.proxyHandler. split.
  - intros ->. reflexivity.
  - intros email -> Hp. unfold http.StripPrefix, strings.TrimPrefix.
    cbn [http.Url http.Path http.RawPath].
    assert (http.Path (if negb (String.eqb (http.Get (http.Header r) "X-Infra-Query")
                                           EmptyString)
                       then http.mkURL (http.Path (http.Url r))
                              (http.RawPath (http.Url r))
                              (http.Get (http.Header r) "X-Infra-Query")
                       else http.Url r) = http.Path (http.Url r)) as ->.
    { by destruct (negb _). }
    rewrite Hp, Nat.ltb_irrefl. reflexivity.
Qed.

End Forwarding.

(** ** What a tick reads from the cluster *)

Section TickOptions.

(** X7.  With a name and an endpoint configured, the tick asks the
    cluster for neither: what those calls would return, errors
    included, has no effect on it. *)
Theorem tick_uses_configured_name_and_endpoint (options : engine.Options)
    (k8s k8s' : kubernetes.Kubernetes) (client : v1.V1Client) :
  engine.Name options <> EmptyString ->
  engine.Endpoint options <> EmptyString ->
  kubernetes.CA k8s' = kubernetes.CA k8s ->
  kubernetes.Namespace k8s' = kubernetes.Namespace k8s ->
  kubernetes.SaToken k8s' = kubernetes.SaToken k8s ->
  kubernetes.UpdateRoles k8s' = kubernetes.UpdateRoles k8s ->
  engine.tick options k8s' client = engine.tick options k8s client.
Proof.
  intros Hname Hep Hca Hns Hsa Hupd.
  apply String.eqb_neq in Hname, Hep.
  unfold engine.tick. rewrite Hname, Hep, Hca, Hns, Hsa, Hupd. reflexivity.
Qed.

End TickOptions.

(** ** The engine on further requests *)

Section EngineCases.

(** The hypotheses of [getjwk_serves_cached_key]: a minute after the
    key set was fetched, the registry being down does not matter. *)
Lemma getjwk_serves_cached_key_witness :
  engine.getjwk (J := scenario.jose) (Err "registry down") (scenario.now + Minute)
    (engine.getjwk (J := scenario.jose) (Ok scenario.published) scenario.now
       scenario.emptyCache).2
  = (Ok (Some 1),
     (engine.getjwk (J := scenario.jose) (Ok scenario.published) scenario.now
        scenario.emptyCache).2).
Proof.
  exact (proj2 (getjwk_serves_cached_key (J := scenario.jose) 1 [2]
                  (Err "registry down") scenario.now (scenario.now + Minute)
                  scenario.emptyCache eq_refl eq_refl eq_refl)).
Defined.

(** The hypotheses of [getjwk_failed_refresh_keeps_cache]: ten minutes
    after the last fetch, with the registry down. *)
Lemma getjwk_failed_refresh_witness :
  ∃ e, engine.getjwk (J := scenario.jose) (Err "registry down") scenario.now
         cases.staleCache
       = (Err e, cases.staleCache).
Proof.
  apply (getjwk_failed_refresh_keeps_cache (J := scenario.jose)
           (Err "registry down") scenario.now cases.staleCache).
  - reflexivity.
  - right. by eexists.
Defined.

(** The hypotheses of [rejected_before_the_key_is_fetched]. *)
Lemma rejected_before_the_key_is_fetched_witness :
  engine.serveProxy (J := scenario.jose) "sa-token" (Ok scenario.published)
    scenario.now scenario.emptyCache cases.garbage
  = (http.Replied 401 "unauthorized", scenario.emptyCache).
Proof.
  apply (rejected_before_the_key_is_fetched (J := scenario.jose)
           (engine.getjwk (J := scenario.jose) (Ok scenario.published) scenario.now)
           scenario.now scenario.emptyCache cases.garbage).
  right. reflexivity.
Defined.

(** The hypothesis of [proxyHandler_forwards_the_rest]: the client's
    [Impersonate-Group] header is among the headers handed to the
    reverse proxy. *)
Lemma proxyHandler_forwards_the_rest_witness :
  ∃ r', engine.proxyHandler "sa-token" cases.authenticated = http.Passed r'
        ∧ http.Path (http.Url r') = "/api/v1/pods"
        ∧ http.Header r' !! "Impersonate-Group" = Some ["system:masters"].
Proof.
  eexists. split; [reflexivity|]. split; [reflexivity|].
  rewrite (proj2 (proj2 (proxyHandler_forwards_the_rest "sa-token"
                            cases.authenticated _ eq_refl))) by discriminate.
  reflexivity.
Defined.

(** The hypotheses of [tick_uses_configured_name_and_endpoint]. *)
Lemma tick_uses_configured_name_and_endpoint_witness :
  engine.tick cases.configured cases.silentCluster scenario.registryWithoutRoles
  = engine.tick cases.configured scenario.cluster scenario.registryWithoutRoles.
Proof.
  apply (tick_uses_configured_name_and_endpoint cases.configured scenario.cluster
           cases.silentCluster scenario.registryWithoutRoles);
    (discriminate || reflexivity).
Defined.

(** The hypothesis of [tick_panics_only_on_nil_response]. *)
Lemma tick_panics_only_on_nil_response_witness :
  ∃ request,
    v1.CreateDestination scenario.registryWithoutRoles request = (None, None)
    ∨ ∃ res err,
        v1.CreateDestination scenario.registryWithoutRoles request = (Some res, None)
        ∧ v1.ListRoles scenario.registryWithoutRoles (v1.Id res) = (None, err).
Proof.
  apply (tick_panics_only_on_nil_response scenario.options scenario.cluster
           scenario.registryWithoutRoles).
  reflexivity.
Defined.

End EngineCases.

(** ** The log writer *)

Section LogWriter.

Lemma trimTrailingNewline_cons (c d : ascii) (t : string) :
  logging.trimTrailingNewline (String c (String d t))
  = String c (logging.trimTrailingNewline (String d t)).
Proof.
  unfold logging.trimTrailingNewline.
  cbn [String.length Nat.ltb Nat.leb andb Nat.sub String.get].
  rewrite !Nat.sub_0_r.
  destruct (match String.length t with
            | O => Some d
            | S n' => String.get n' t
            end) as [x|]; [|reflexivity].
  destruct (Ascii.eqb x logging.newline); reflexivity.
Qed.

(** The bytes logged are the bytes written, less one final newline. *)
Lemma trimTrailingNewline_spec (p : string) :
  (p = logging.trimTrailingNewline p +:+ String logging.newline EmptyString)
  ∨ (logging.trimTrailingNewline p = p
     ∧ ∀ q, p <> q +:+ String logging.newline EmptyString).
Proof.
  induction p as [|c p IH].
  - right. split; [reflexivity|]. intros [|? ?]; discriminate.
  - destruct p as [|d t].
    + unfold logging.trimTrailingNewline. cbn.
      destruct (Ascii.eqb_spec c logging.newline) as [->|Hc].
      * left. reflexivity.
      * right. split; [reflexivity|].
        intros [|x [|y q]]; cbn; intros [= ]; try congruence.
    + rewrite trimTrailingNewline_cons.
      destruct IH as [IH|[IH Hno]].
      * left. rewrite append_cons. congruence.
      * right. split; [congruence|].
        intros [|x q]; [discriminate|].
        rewrite append_cons. intros [= -> Hq]. by apply (Hno q).
Qed.

(** X8.  [logWriter.Write] always reports all of [p] as written and no
    error, and logs, at the writer's level, [p] without its final
    newline if it has one: only one newline is dropped, and bytes that
    do not end in a newline are logged whole. *)
Theorem Write_reports_all_bytes_and_trims_one_newline (level : Z) (p : string) :
  (logging.Write level p).1.1 = String.length p
  ∧ (logging.Write level p).1.2 = None
  ∧ logging.level (logging.Write level p).2 = level
  ∧ ((p = logging.message (logging.Write level p).2
          +:+ String logging.newline EmptyString)
     ∨ (logging.message (logging.Write level p).2 = p
        ∧ ∀ q, p <> q +:+ String logging.newline EmptyString)).
Proof.
  split; [reflexivity|]. split; [reflexivity|]. split; [reflexivity|].
  apply trimTrailingNewline_spec.
Qed.

(** X9.  Whatever number of times a test patches the logger, and
    whatever else it registered before, running its cleanups puts back
    the logger it started with; until then the logger is the one of the
    last patch. *)
Theorem PatchLogger_is_undone_by_cleanups {W : Type} (writers : list W)
    (L0 : logging.logger W) (cleanups0 : list (logging.logger W -> logging.logger W)) :
  let st := fold_left logging.PatchLogger writers (L0, cleanups0) in
  logging.runCleanups st.1 st.2 = logging.runCleanups L0 cleanups0
  ∧ st.1 = match last writers with
           | Some w => logging.newLogger w
           | None => L0
           end.
Proof.
  revert L0 cleanups0. induction writers as [|w ws IH]; intros L0 cleanups0.
  - split; reflexivity.
  - cbn [fold_left]. destruct (IH (logging.newLogger w) ((λ _, L0) :: cleanups0))
      as [Hrun Hlast].
    change (logging.PatchLogger (L0, cleanups0) w)
      with (logging.newLogger w, (λ _ : logging.logger W, L0) :: cleanups0).
    cbn zeta in *. split.
    + rewrite Hrun. reflexivity.
    + rewrite Hlast. destruct ws as [|w' ws']; [reflexivity|].
      rewrite last_cons_cons.
      destruct (last (w' :: ws')) eqn:E; [reflexivity|].
      by apply last_None in E.
Qed.

End LogWriter.

(** ** Adding a public key *)

Section AddingKeys.
Import models data.
Context {Tx Ident : Type}.

(** X10.  A key without a user id, a fingerprint or a key type is
    refused before the store is touched: the error does not depend on
    the store and the transaction is as before.  If the owner cannot be
    read back after the insert, the error is returned with the insert
    still part of the transaction; and the owner's SSH username is set
    only when the owner has none. *)
Theorem AddUserPublicKey_checks_before_it_writes
    (db : user_public_keys.Store Tx Ident) (tx : Tx) (key : UserPublicKey) :
  (UserID key = 0 ∨ Fingerprint key = EmptyString ∨ KeyType key = EmptyString ->
   ∃ msg, ∀ db' : user_public_keys.Store Tx Ident,
     user_public_keys.AddUserPublicKey db' tx key = (Some (Errorf msg), tx))
  ∧ (UserID key <> 0 ->
     Fingerprint key <> EmptyString ->
     KeyType key <> EmptyString ->
     ∀ tx1, user_public_keys.insert db tx key = (None, tx1) ->
       (∀ e, user_public_keys.GetIdentity db tx1 (UserID key) = inl e ->
             user_public_keys.AddUserPublicKey db tx key = (Some e, tx1))
       ∧ (∀ user, user_public_keys.GetIdentity db tx1 (UserID key) = inr user ->
                  user_public_keys.SSHUsername db user <> EmptyString ->
                  user_public_keys.AddUserPublicKey db tx key = (None, tx1))
       ∧ (∀ user, user_public_keys.GetIdentity db tx1 (UserID key) = inr user ->
                  user_public_keys.SSHUsername db user = EmptyString ->
                  user_public_keys.AddUserPublicKey db tx key
                  = user_public_keys.SetSSHUsername db tx1 user)).
Proof.
  unfold user_public_keys.AddUserPublicKey. split.
  - intros Hbad.
    destruct (Z.eqb_spec (UserID key) 0) as [|Hu]; [by eexists|].
    destruct (String.eqb_spec (Fingerprint key) EmptyString) as [|Hf]; [by eexists|].
    destruct (String.eqb_spec (KeyType key) EmptyString) as [|Hk]; [by eexists|].
    destruct Hbad as [?|[?|?]]; done.
  - intros Hu Hf Hk tx1 Hins.
    apply Z.eqb_neq in Hu. apply String.eqb_neq in Hf, Hk.
    rewrite Hu, Hf, Hk, Hins. split; [|split].
    + intros e ->. reflexivity.
    + intros user -> Hssh. apply String.eqb_neq in Hssh. rewrite Hssh. reflexivity.
    + intros user -> ->. reflexivity.
Qed.

End AddingKeys.

(** ** The comparers of the access key tests *)

Section Comparers.

(** X11.  [nonZeroString] and [anyValidUID] are symmetric, as a
    comparer has to be.  [nonZeroString] holds exactly of two non-empty
    strings of which one is the placeholder: two equal strings that are
    not the placeholder do not compare equal. *)
Theorem test_comparers_are_symmetric (x y : string) (a b : Z) :
  access_key_test.nonZeroString x y = access_key_test.nonZeroString y x
  ∧ access_key_test.anyValidUID a b = access_key_test.anyValidUID b a
  ∧ (access_key_test.nonZeroString x y = true ↔
     x <> EmptyString ∧ y <> EmptyString
     ∧ (x = "<any-string>" ∨ y = "<any-string>"))
  ∧ (access_key_test.nonZeroString x x = true ↔ x = "<any-string>").
Proof.
  unfold access_key_test.nonZeroString, access_key_test.anyValidUID.
  split; [|split; [apply andb_comm|split]].
  - rewrite (orb_comm (String.eqb x EmptyString)).
    rewrite (orb_comm (String.eqb x "<any-string>")). reflexivity.
  - destruct (String.eqb_spec x EmptyString) as [->|Hx];
      destruct (String.eqb_spec y EmptyString) as [->|Hy]; cbn [orb];
      try (split; [discriminate|intros (? & ? & _); done]).
    destruct (String.eqb_spec x "<any-string>") as [->|Hx'];
      destruct (String.eqb_spec y "<any-string>") as [->|Hy']; cbn [orb];
      try (split; [intros _; split; [done|split; [done|tauto]]|reflexivity]).
    split; [discriminate|intros (_ & _ & [?|?]); done].
  - destruct (String.eqb_spec x EmptyString) as [->|Hx]; cbn [orb].
    + split; discriminate.
    + destruct (String.eqb_spec x "<any-string>") as [->|Hx']; cbn [orb].
      * split; reflexivity.
      * split; [discriminate|done].
Qed.

End Comparers.

(** ** Incomplete input to the write operations *)

Section IncompleteInput.
Import models data.

(** X12.  [CreateGrant] refuses a grant without a subject, a privilege
    or a resource, and [DeleteGrants] options that select nothing (an
    exclusion list alone selects nothing): each returns its error with
    the transaction, the sequence and the grant untouched. *)
Theorem writes_refuse_incomplete_input (newID : Z) (now : Time) (tx : WriteTxn) :
  (∀ grant,
     Subject grant = EmptyString ∨ Privilege grant = EmptyString
     ∨ Resource grant = EmptyString ->
     ∃ msg, CreateGrant newID now tx grant = (Some (Errorf msg), tx, grant))
  ∧ (∀ opts,
       DelByID opts = 0 ->
       DelBySubject opts = EmptyString ->
       DelByCreatedBy opts = 0 ->
       DeleteGrants now tx opts
       = (Some (Errorf "DeleteGrants requires an ID to delete"), tx)).
Proof.
  split.
  - intros grant Hbad. unfold CreateGrant.
    destruct (String.eqb_spec (Subject grant) EmptyString) as [|Hs]; [by eexists|].
    destruct (String.eqb_spec (Privilege grant) EmptyString) as [|Hp]; [by eexists|].
    destruct (String.eqb_spec (Resource grant) EmptyString) as [|Hr]; [by eexists|].
    destruct Hbad as [?|[?|?]]; done.
  - intros opts Hid Hsub Hby. unfold DeleteGrants. rewrite Hid, Hsub, Hby.
    reflexivity.
Qed.

End IncompleteInput.

(** ** Reading back a created grant *)

Section ReadingBack.
Import models data.

Lemma find_snoc {A : Type} (p : A -> bool) (l : list A) (x : A) :
  (∀ h, h ∈ l -> p h = false) ->
  p x = true ->
  find p (l ++ [x]) = Some x.
Proof.
  intros Hl Hx. induction l as [|h l IH]; cbn.
  - by rewrite Hx.
  - rewrite (Hl h) by apply list_elem_of_here.
    apply IH. intros h' Hh'. apply Hl. by apply list_elem_of_further.
Qed.

(** The row [GetGrant] finds after [CreateGrant]. *)
Lemma CreateGrant_read_back (newID : Z) (now : Time) (tx : WriteTxn)
    (grant : Grant) :
  inBlock tx && failed tx = false ->
  Subject grant <> EmptyString ->
  Privilege grant <> EmptyString ->
  Resource grant <> EmptyString ->
  DeletedAt (GModel grant) = None ->
  ID (GModel (inserted newID now tx grant)) <> 0 ->
  (∀ h, h ∈ grants (wrows tx) -> conflicts (inserted newID now tx grant) h = false) ->
  let '(err, tx', g) := CreateGrant newID now tx grant in
  err = None
  ∧ GetGrant (asReadTxn tx')
      (mkGetGrantOptions (ID (GModel g)) EmptyString EmptyString EmptyString)
    = inr (withUpdateIndex g (seq_update_index tx + 1))
  ∧ GetGrant (asReadTxn tx')
      (mkGetGrantOptions 0 (Subject g) (Privilege g) (Resource g))
    = inr (withUpdateIndex g (seq_update_index tx + 1)).
Proof.
  intros Husable Hs Hp Hr Hlive Hid Hfree.
  rewrite (CreateGrant_run newID now tx grant Husable Hs Hp Hr). cbn zeta.
  set (g := inserted newID now tx grant) in *.
  assert (existsb (conflicts g) (grants (wrows tx)) = false) as ->.
  { apply not_true_is_false. intros Hc.
    apply existsb_conflicts in Hc as (h & Hin & Hc). by rewrite (Hfree h Hin) in Hc. }
  assert (OrganizationID g = wOrganizationID tx) as Horg by reflexivity.
  assert (live (GModel g) = true) as Hg.
  { unfold live. subst g. cbn. by rewrite Hlive. }
  assert (Subject g = Subject grant) as Hsub by reflexivity.
  split; [reflexivity|]. unfold GetGrant, handleReadError.
  cbn [asReadTxn rows OrganizationID_ wrows wOrganizationID grants withGrants
       GetByID GetBySubject GetByPrivilege GetByResource].
  split.
  - apply Z.eqb_neq in Hid. rewrite Hid. cbn [negb].
    rewrite (find_snoc _ _ (withUpdateIndex g (seq_update_index tx + 1)));
      [reflexivity| |].
    + intros h Hin. specialize (Hfree h Hin). unfold conflicts in Hfree.
      apply orb_false_iff in Hfree as [Hne _]. rewrite Z.eqb_sym in Hne.
      rewrite Hne. apply andb_false_r.
    + unfold withUpdateIndex.
      cbn [OrganizationID GModel Subject Privilege Resource].
      rewrite Horg, Hg, !Z.eqb_refl. reflexivity.
  - cbn [Z.eqb negb]. rewrite Hsub.
    apply String.eqb_neq in Hs. rewrite Hs. cbn [negb].
    rewrite (find_snoc _ _ (withUpdateIndex g (seq_update_index tx + 1)));
      [reflexivity| |].
    + intros h Hin. specialize (Hfree h Hin). unfold conflicts in Hfree.
      apply orb_false_iff in Hfree as [_ Hkey].
      rewrite Hg in Hkey. cbn [andb] in Hkey.
      destruct (live (GModel h)); [|by rewrite andb_false_r].
      cbn [andb] in Hkey. unfold sameGrantKey in Hkey.
      rewrite Horg, Z.eqb_sym, (String.eqb_sym (Subject g)),
        (String.eqb_sym (Privilege g)), (String.eqb_sym (Resource g)) in Hkey.
      rewrite <- Hsub. rewrite andb_true_r. exact Hkey.
    + unfold withUpdateIndex.
      cbn [OrganizationID GModel Subject Privilege Resource].
      rewrite Horg, Hg, Z.eqb_refl, Hsub, !String.eqb_refl. reflexivity.
Qed.

(** X13.  A grant that [CreateGrant] has inserted is what [GetGrant]
    returns in the same transaction, both by its id and by its subject,
    privilege and resource: one row, with the grant's subject,
    privilege, resource and creator, the transaction's organization,
    and as its update index the value [CreateGrant] drew from the
    sequence, one above the value before. *)
Theorem CreateGrant_then_GetGrant (newID : Z) (now : Time) (tx : WriteTxn)
    (grant : Grant) :
  inBlock tx && failed tx = false ->
  Subject grant <> EmptyString ->
  Privilege grant <> EmptyString ->
  Resource grant <> EmptyString ->
  DeletedAt (GModel grant) = None ->
  ID (GModel (inserted newID now tx grant)) <> 0 ->
  (∀ h, h ∈ grants (wrows tx) -> conflicts (inserted newID now tx grant) h = false) ->
  let '(err, tx', g) := CreateGrant newID now tx grant in
  err = None
  ∧ ∃ row,
      GetGrant (asReadTxn tx')
        (mkGetGrantOptions (ID (GModel g)) EmptyString EmptyString EmptyString)
      = inr row
      ∧ GetGrant (asReadTxn tx')
          (mkGetGrantOptions 0 (Subject grant) (Privilege grant) (Resource grant))
        = inr row
      ∧ UpdateIndex row = seq_update_index tx + 1
      ∧ seq_update_index tx' = seq_update_index tx + 1
      ∧ GModel row = GModel g
      ∧ (OrganizationID row, Subject row, Privilege row, Resource row, CreatedBy row)
        = (wOrganizationID tx, Subject grant, Privilege grant, Resource grant,
           CreatedBy grant).
Proof.
  intros Husable Hs Hp Hr Hlive Hid Hfree.
  pose proof (CreateGrant_read_back newID now tx grant
                Husable Hs Hp Hr Hlive Hid Hfree) as Hread.
  pose proof (CreateGrant_run newID now tx grant Husable Hs Hp Hr) as Hrun.
  cbn zeta in Hrun.
  assert (existsb (conflicts (inserted newID now tx grant)) (grants (wrows tx))
          = false) as Hnone.
  { apply not_true_is_false. intros Hc.
    apply existsb_conflicts in Hc as (h & Hin & Hc). by rewrite (Hfree h Hin) in Hc. }
  rewrite Hnone in Hrun.
  destruct (CreateGrant newID now tx grant) as [[err tx'] g].
  injection Hrun as -> -> ->.
  destruct Hread as (_ & Hbyid & Hbykey).
  split; [reflexivity|].
  exists (withUpdateIndex (inserted newID now tx grant) (seq_update_index tx + 1)).
  split; [exact Hbyid|]. split; [exact Hbykey|]. repeat split.
Qed.

End ReadingBack.

(** ** The destination condition *)

Section Destination.
Import models data.

(** X14.  For a destination whose name has no wildcard or escape
    character of LIKE, the destination condition holds exactly of the
    resource that is the destination and of the resources that start
    with the destination and a dot. *)
Theorem destination_selects_name_and_namespaces (destination : string) (g : Grant) :
  invariants.plain destination = true ->
  destinationMatches destination g
  = String.eqb (Resource g) destination
    || strings.HasPrefix (Resource g) (destination +:+ ".").
Proof.
  intros Hplain. unfold destinationMatches. by rewrite like_plain_prefix.
Qed.

End Destination.

(** ** Deleting grants *)

Section Deleting.
Import models data.

Lemma softDeleteRows_ext (now : Time) (w w' : Grant -> bool) (l : list Grant) :
  (∀ g, w g = w' g) ->
  ∀ seq, softDeleteRows now w seq l = softDeleteRows now w' seq l.
Proof.
  intros Hext. induction l as [|x l IH]; intros seq; cbn; [reflexivity|].
  rewrite <- Hext. destruct (w x); by rewrite IH.
Qed.

(** [DeleteGrants] with a selector is one UPDATE of the selected live
    rows of the transaction's organization. *)
Lemma DeleteGrants_selected (now : Time) (tx : WriteTxn) (opts : DeleteGrantsOptions) :
  DelByID opts <> 0 ∨ DelBySubject opts <> EmptyString ∨ DelByCreatedBy opts <> 0 ->
  DeleteGrants now tx opts
  = Exec tx (SOFT_DELETE_GRANTS now
               (λ g, (OrganizationID g =? wOrganizationID tx) && live (GModel g)
                     && invariants.selected opts g)).
Proof.
  intros Hsel. unfold DeleteGrants, invariants.selected.
  destruct (negb (DelByID opts =? 0)) eqn:Hid; [reflexivity|].
  destruct (negb (String.eqb (DelBySubject opts) EmptyString)) eqn:Hsub;
    [reflexivity|].
  destruct (negb (DelByCreatedBy opts =? 0)) eqn:Hby.
  - unfold Exec. destruct (inBlock tx && failed tx); [reflexivity|].
    rewrite (softDeleteRows_ext now _
               (λ g, (OrganizationID g =? wOrganizationID tx) && live (GModel g)
                     && ((CreatedBy g =? DelByCreatedBy opts)
                         && negb (existsb (Z.eqb (ID (GModel g))) (NotIDs opts)))));
      [reflexivity|].
    intros g. by rewrite andb_assoc.
  - apply negb_false_iff in Hid, Hsub, Hby.
    apply Z.eqb_eq in Hid, Hby. apply String.eqb_eq in Hsub.
    destruct Hsel as [?|[?|?]]; done.
Qed.

(** The UPDATE row by row: a row is left as it is, or soft-deleted with
    an index above the sequence value before. *)
Lemma softDeleteRows_rows (now : Time) (w : Grant -> bool) (l : list Grant) :
  ∀ seq,
    seq <= (softDeleteRows now w seq l).2
    ∧ Forall2 (λ g g', (w g = false ∧ g' = g)
                       ∨ (w g = true
                          ∧ ∃ i, seq < i <= (softDeleteRows now w seq l).2
                                 ∧ g' = softDeleted now g i))
              l (softDeleteRows now w seq l).1.
Proof.
  induction l as [|x l IH]; intros seq; cbn.
  - split; [lia|constructor].
  - destruct (w x) eqn:Hx.
    + destruct (IH (seq + 1)) as [Hle Hrows].
      destruct (softDeleteRows now w (seq + 1) l) as [l' seq']. cbn in *.
      split; [lia|]. constructor.
      * right. split; [done|]. exists (seq + 1). split; [lia|done].
      * eapply Forall2_impl; [exact Hrows|]. cbn.
        intros g g' [H|[Hw (i & Hi & Hg)]]; [by left|].
        right. split; [done|]. exists i. split; [lia|done].
    + destruct (IH seq) as [Hle Hrows].
      destruct (softDeleteRows now w seq l) as [l' seq']. cbn in *.
      split; [lia|]. constructor; [by left|exact Hrows].
Qed.

(** X15.  A successful [DeleteGrants] removes no row: every row of the
    table is either left as it is, or was a selected live row of the
    transaction's organization and is now soft-deleted, with a new
    update index above the sequence value before; the other tables and
    the savepoints are as before.  Afterwards no live row of the
    organization is selected, and [GetGrant] by a deleted id reports
    that the grant is not found. *)
Theorem DeleteGrants_soft_deletes (now : Time) (tx tx' : WriteTxn)
    (opts : DeleteGrantsOptions) :
  DeleteGrants now tx opts = (None, tx') ->
  Forall2 (λ g g',
             (g' = g
              ∧ (DeletedAt (GModel g) = None ->
                 OrganizationID g = wOrganizationID tx ->
                 invariants.selected opts g = false))
             ∨ (DeletedAt (GModel g) = None
                ∧ OrganizationID g = wOrganizationID tx
                ∧ invariants.selected opts g = true
                ∧ ∃ i, seq_update_index tx < i <= seq_update_index tx'
                       ∧ g' = softDeleted now g i))
          (grants (wrows tx)) (grants (wrows tx'))
  ∧ (user_public_keys (wrows tx'), identities (wrows tx'),
     identities_groups (wrows tx'), savepoints tx', wOrganizationID tx')
    = (user_public_keys (wrows tx), identities (wrows tx),
       identities_groups (wrows tx), savepoints tx, wOrganizationID tx)
  ∧ (∀ g', g' ∈ grants (wrows tx') ->
           DeletedAt (GModel g') = None ->
           OrganizationID g' = wOrganizationID tx ->
           invariants.selected opts g' = false)
  ∧ (DelByID opts <> 0 ->
     GetGrant (asReadTxn tx')
       (mkGetGrantOptions (DelByID opts) EmptyString EmptyString EmptyString)
     = inl ErrNotFound).
Proof.
  intros Hdel.
  assert (DelByID opts <> 0 ∨ DelBySubject opts <> EmptyString
          ∨ DelByCreatedBy opts <> 0) as Hsel.
  { destruct (Z.eq_dec (DelByID opts) 0) as [Hid|]; [|by left].
    destruct (String.eqb_spec (DelBySubject opts) EmptyString) as [Hsub|];
      [|by right; left].
    destruct (Z.eq_dec (DelByCreatedBy opts) 0) as [Hby|]; [|by right; right].
    unfold DeleteGrants in Hdel. rewrite Hid, Hsub, Hby in Hdel. discriminate. }
  rewrite (DeleteGrants_selected now tx opts Hsel) in Hdel. unfold Exec in Hdel.
  destruct (inBlock tx && failed tx); [discriminate|].
  set (w := λ g, (OrganizationID g =? wOrganizationID tx) && live (GModel g)
                 && invariants.selected opts g) in *.
  destruct (softDeleteRows_rows now w (grants (wrows tx)) (seq_update_index tx))
    as [_ Hrows].
  destruct (softDeleteRows now w (seq_update_index tx) (grants (wrows tx)))
    as [gs seq]. injection Hdel as <-. cbn in *.
  assert (∀ g, w g = true ↔
               DeletedAt (GModel g) = None
               ∧ OrganizationID g = wOrganizationID tx
               ∧ invariants.selected opts g = true) as Hw.
  { intros g. unfold w, live. rewrite !andb_true_iff, Z.eqb_eq.
    destruct (DeletedAt (GModel g)); [|tauto].
    split; [intros [[_ ?] _]; discriminate|intros [? _]; discriminate]. }
  assert (Forall2 (λ g g',
             (g' = g
              ∧ (DeletedAt (GModel g) = None ->
                 OrganizationID g = wOrganizationID tx ->
                 invariants.selected opts g = false))
             ∨ (DeletedAt (GModel g) = None
                ∧ OrganizationID g = wOrganizationID tx
                ∧ invariants.selected opts g = true
                ∧ ∃ i, seq_update_index tx < i <= seq
                       ∧ g' = softDeleted now g i))
          (grants (wrows tx)) gs) as Hall.
  { eapply Forall2_impl; [exact Hrows|]. cbn.
    intros g g' [[Hno ->]|[Hyes Hi]].
    - left. split; [done|]. intros Hl Ho.
      apply not_true_is_false. intros Hs.
      assert (w g = true) by (apply Hw; done). congruence.
    - right. apply Hw in Hyes as (? & ? & ?). done. }
  assert (∀ g', g' ∈ gs ->
                DeletedAt (GModel g') = None ->
                OrganizationID g' = wOrganizationID tx ->
                invariants.selected opts g' = false) as Hnone.
  { intros g' Hin Hl Ho.
    apply list_elem_of_lookup in Hin as [n Hn].
    destruct (Forall2_lookup_r _ _ _ _ _ Hall Hn) as (g & _ & [[-> Hg]|Hg]).
    - by apply Hg.
    - destruct Hg as (_ & _ & _ & i & _ & ->). discriminate. }
  split; [exact Hall|]. split; [reflexivity|]. split; [exact Hnone|].
  intros Hid. unfold GetGrant, handleReadError. cbn.
  apply Z.eqb_neq in Hid. rewrite Hid. cbn [negb].
  destruct (find _ gs) as [g|] eqn:Hf; [|reflexivity].
  apply find_some in Hf as [Hin Hp].
  apply andb_true_iff in Hp as [Hp Hsame]. apply andb_true_iff in Hp as [Ho Hl].
  apply Z.eqb_eq in Ho. unfold live in Hl.
  destruct (DeletedAt (GModel g)) eqn:Hd; [discriminate|].
  assert (invariants.selected opts g = false) as Hsel'.
  { apply Hnone; [by apply list_elem_of_In|done|done]. }
  unfold invariants.selected in Hsel'. rewrite Hid in Hsel'. cbn [negb] in Hsel'.
  congruence.
Qed.

End Deleting.

(** ** The sequence behind the update indexes *)

Section Sequence.
Import models data.

Lemma indexed_mono (seq seq' : Z) (t : Tables) :
  seq <= seq' -> invariants.indexed seq t -> invariants.indexed seq' t.
Proof.
  intros Hle [Hnodup Hbound]. split; [exact Hnodup|].
  intros g Hg. specialize (Hbound g Hg). lia.
Qed.

Lemma fromSavepoint_elem_of (name : string) (sps older : list (string * Tables))
    (sp : string * Tables) :
  fromSavepoint name sps = Some (sp, older) ->
  sp ∈ sps ∧ older ⊆ sps.
Proof.
  induction sps as [|x sps IH]; cbn; [discriminate|].
  destruct (String.eqb x.1 name).
  - intros [= -> ->]. split; [apply list_elem_of_here|].
    intros y Hy. by apply list_elem_of_further.
  - intros H. destruct (IH H) as [Hin Hsub]. split.
    + by apply list_elem_of_further.
    + intros y Hy. apply list_elem_of_further. by apply Hsub.
Qed.

(** The UPDATE keeps the indexes distinct: a row it leaves has its old
    index, at most [bound]; a row it changes has a new one above
    [seq]. *)
Lemma softDeleteRows_indexes (now : Time) (w : Grant -> bool) (bound : Z)
    (l : list Grant) :
  ∀ seq,
    bound <= seq ->
    (∀ g, g ∈ l -> UpdateIndex g <= bound) ->
    NoDup (map UpdateIndex l) ->
    seq <= (softDeleteRows now w seq l).2
    ∧ NoDup (map UpdateIndex (softDeleteRows now w seq l).1)
    ∧ ∀ i, i ∈ map UpdateIndex (softDeleteRows now w seq l).1 ->
           (i <= bound ∧ i ∈ map UpdateIndex l)
           ∨ seq < i <= (softDeleteRows now w seq l).2.
Proof.
  induction l as [|x l IH]; intros seq Hb Hbound Hnodup; cbn.
  - split; [lia|]. split; [constructor|]. intros i Hi. inversion Hi.
  - cbn in Hnodup. apply NoDup_cons in Hnodup as [Hx Hnodup].
    assert (∀ g, g ∈ l -> UpdateIndex g <= bound) as Hbound'.
    { intros g Hg. apply Hbound. by apply list_elem_of_further. }
    assert (UpdateIndex x <= bound) as Hxb by apply Hbound, list_elem_of_here.
    destruct (w x).
    + destruct (IH (seq + 1) ltac:(lia) Hbound' Hnodup) as (Hle & Hnd & Hidx).
      destruct (softDeleteRows now w (seq + 1) l) as [l' seq']. cbn in *.
      split; [lia|]. split.
      * apply NoDup_cons. split; [|exact Hnd].
        intros Hin. destruct (Hidx _ Hin) as [[? _]|?]; lia.
      * intros i Hi. apply elem_of_cons in Hi as [->|Hi]; [right; lia|].
        destruct (Hidx i Hi) as [[? ?]|?]; [left|right; lia].
        split; [done|]. by apply list_elem_of_further.
    + destruct (IH seq Hb Hbound' Hnodup) as (Hle & Hnd & Hidx).
      destruct (softDeleteRows now w seq l) as [l' seq']. cbn in *.
      split; [lia|]. split.
      * apply NoDup_cons. split; [|exact Hnd].
        intros Hin. destruct (Hidx _ Hin) as [[_ ?]|?]; [done|lia].
      * intros i Hi. apply elem_of_cons in Hi as [->|Hi].
        -- left. split; [done|apply list_elem_of_here].
        -- destruct (Hidx i Hi) as [[? ?]|?]; [left|right; lia].
           split; [done|]. by apply list_elem_of_further.
Qed.

(** Every statement keeps the indexes of the rows, and of the rows
    behind every savepoint, distinct and at most the sequence value,
    and never takes the sequence back. *)
Lemma Exec_sequenced (tx : WriteTxn) (s : Stmt) :
  invariants.sequenced tx ->
  invariants.sequenced (Exec tx s).2
  ∧ seq_update_index tx <= seq_update_index (Exec tx s).2.
Proof.
  intros [Hrows Hsps].
  assert (∀ seq', seq_update_index tx <= seq' ->
                  ∀ sp, sp ∈ savepoints tx -> invariants.indexed seq' sp.2) as Hsps'.
  { intros seq' Hle sp Hsp. by apply (indexed_mono (seq_update_index tx)), Hsps. }
  unfold invariants.sequenced.
  destruct s as [name|name|name|g|now w]; cbn.
  - destruct (inBlock tx); cbn; [|by split].
    destruct (failed tx); cbn; [by split|].
    split; [|lia]. split; [exact Hrows|]. cbn.
    intros sp Hsp. apply elem_of_cons in Hsp as [->|Hsp]; [exact Hrows|by apply Hsps].
  - destruct (inBlock tx); cbn; [|by split].
    destruct (fromSavepoint name (savepoints tx)) as [[sp older]|] eqn:Hf; cbn.
    + apply fromSavepoint_elem_of in Hf as [Hin Hsub].
      split; [|lia]. split; [by apply Hsps|]. cbn.
      intros sp' Hsp'. apply elem_of_cons in Hsp' as [->|Hsp'];
        [by apply Hsps|by apply Hsps, Hsub].
    + by split.
  - destruct (inBlock tx); cbn; [|by split].
    destruct (failed tx); cbn; [by split|].
    destruct (fromSavepoint name (savepoints tx)) as [[sp older]|] eqn:Hf; cbn.
    + apply fromSavepoint_elem_of in Hf as [Hin Hsub].
      split; [|lia]. split; [exact Hrows|]. cbn.
      intros sp' Hsp'. by apply Hsps, Hsub.
    + by split.
  - destruct (inBlock tx && failed tx); cbn; [by split|].
    destruct (existsb (conflicts g) (grants (wrows tx))); cbn.
    + split; [|lia]. split.
      * apply (indexed_mono (seq_update_index tx)); [lia|exact Hrows].
      * cbn. apply Hsps'. lia.
    + split; [|lia]. split; [|cbn; apply Hsps'; lia].
      destruct Hrows as [Hnodup Hbound]. split; cbn.
      * rewrite map_app. apply NoDup_app. split; [exact Hnodup|]. split.
        -- intros i Hi Hi'. apply list_elem_of_singleton in Hi'. subst i.
           apply elem_of_map in Hi as (h & Hh & Hin).
           specialize (Hbound h Hin). cbn in Hh. lia.
        -- apply NoDup_singleton.
      * intros h Hh. apply elem_of_app in Hh as [Hh|Hh].
        -- specialize (Hbound h Hh). lia.
        -- apply list_elem_of_singleton in Hh. subst h. cbn. lia.
  - destruct (inBlock tx && failed tx); cbn; [by split|].
    destruct Hrows as [Hnodup Hbound].
    destruct (softDeleteRows_indexes now w (seq_update_index tx) (grants (wrows tx))
                (seq_update_index tx) ltac:(lia) Hbound Hnodup)
      as (Hle & Hnd & Hidx).
    destruct (softDeleteRows now w (seq_update_index tx) (grants (wrows tx)))
      as [gs seq]. cbn in *.
    split; [|exact Hle]. split; [|cbn; by apply Hsps'].
    split; cbn; [exact Hnd|].
    intros h Hh.
    destruct (Hidx (UpdateIndex h)) as [[? _]|?]; [|lia|lia].
    apply elem_of_map. by exists h.
Qed.

(** X16.  [CreateGrant] and [DeleteGrants] keep the update indexes of
    the grants distinct and at most the last value of the sequence, in
    the rows the transaction sees and in the rows a rollback to any of
    its savepoints would bring back, whatever their arguments and
    whether they succeed or fail; and they never take the sequence
    back. *)
Theorem writes_keep_update_indexes_distinct (newID : Z) (now : Time)
    (tx : WriteTxn) (grant : Grant) (opts : DeleteGrantsOptions) :
  invariants.sequenced tx ->
  (invariants.sequenced (CreateGrant newID now tx grant).1.2
   ∧ seq_update_index tx <= seq_update_index (CreateGrant newID now tx grant).1.2)
  ∧ (invariants.sequenced (DeleteGrants now tx opts).2
     ∧ seq_update_index tx <= seq_update_index (DeleteGrants now tx opts).2).
Proof.
  intros Hseq. split.
  - unfold CreateGrant.
    destruct (String.eqb (Subject grant) EmptyString); [by split|].
    destruct (String.eqb (Privilege grant) EmptyString); [by split|].
    destruct (String.eqb (Resource grant) EmptyString); [by split|].
    set (g := setOrg tx _).
    destruct (Exec_sequenced tx (SAVEPOINT "beforeCreate") Hseq) as [H1 L1].
    destruct (Exec tx (SAVEPOINT "beforeCreate")) as [err1 tx1]. cbn [snd] in *.
    destruct (match err1 with
              | Some e => negb (isPgErrorCode e NoActiveSQLTransaction)
              | None => false
              end); [by split|].
    destruct (Exec_sequenced tx1 (INSERT_GRANT g) H1) as [H2 L2].
    destruct (Exec tx1 (INSERT_GRANT g)) as [err2 tx2]. cbn [snd] in *.
    destruct err2 as [e|].
    + destruct (Exec_sequenced tx2 (ROLLBACK_TO_SAVEPOINT "beforeCreate") H2)
        as [H3 L3].
      destruct (Exec tx2 (ROLLBACK_TO_SAVEPOINT "beforeCreate")) as [err3 tx3].
      cbn [fst snd] in *. split; [exact H3|lia].
    + destruct (Exec_sequenced tx2 (RELEASE_SAVEPOINT "beforeCreate") H2)
        as [H3 L3].
      destruct (Exec tx2 (RELEASE_SAVEPOINT "beforeCreate")) as [err3 tx3].
      cbn [fst snd] in *. split; [exact H3|lia].
  - unfold DeleteGrants.
    destruct (negb (DelByID opts =? 0)); [by apply Exec_sequenced|].
    destruct (negb (String.eqb (DelBySubject opts) EmptyString));
      [by apply Exec_sequenced|].
    destruct (negb (DelByCreatedBy opts =? 0)); [by apply Exec_sequenced|].
    cbn. split; [exact Hseq|lia].
Qed.

End Sequence.

(** ** The order and the conditions of a listing *)

Section ListingOrder.
Import models data.
Context `{U : UidPkg}.

Lemma insertById_ascending (g : Grant) (l : list Grant) :
  invariants.ascending l -> invariants.ascending (insertById g l).
Proof.
  unfold invariants.ascending. induction l as [|h t IH]; cbn; intros Hl.
  - apply StronglySorted_cons. split; constructor.
  - apply StronglySorted_cons in Hl as [Hh Ht].
    destruct (Z.leb_spec (ID (GModel g)) (ID (GModel h))) as [Hle|Hlt].
    + apply StronglySorted_cons. split.
      * constructor; [exact Hle|].
        eapply Forall_impl; [exact Hh|]. cbn. intros y Hy. lia.
      * apply StronglySorted_cons. done.
    + apply StronglySorted_cons. split; [|by apply IH].
      apply Forall_forall. intros y Hy.
      apply elem_of_insertById in Hy as [->|Hy]; [lia|].
      rewrite Forall_forall in Hh. by apply Hh.
Qed.

Lemma orderById_ascending (l : list Grant) : invariants.ascending (orderById l).
Proof.
  unfold orderById. induction l as [|x l IH]; cbn.
  - constructor.
  - by apply insertById_ascending.
Qed.

Lemma PaginateQuery_ascending (p : option Pagination) (l : list Grant) :
  invariants.ascending l -> invariants.ascending (PaginateQuery p l).
Proof.
  unfold invariants.ascending. destruct p as [p|]; cbn; [|done]. intros Hl.
  rewrite <- (take_drop (Offset p) l) in Hl.
  apply StronglySorted_app in Hl as (_ & _ & Hdrop).
  rewrite <- (take_drop (Limit p) (drop (Offset p) l)) in Hdrop.
  by apply StronglySorted_app in Hdrop as (_ & Htake & _).
Qed.

(** The slice returned, whatever else the call writes. *)
Lemma ListGrants_result (tx : ReadTxn) (opts : ListGrantsOptions)
    (subjects : option (list string)) :
  subjectsFor tx opts = inr subjects ->
  result_ (ListGrants tx opts)
  = PaginateQuery (Pagination_ opts)
      (orderById (filter (λ g, listWhere tx opts subjects g = true)
                         (grants (rows tx)))).
Proof.
  intros Hsub. unfold ListGrants. rewrite Hsub.
  destruct (MaxUpdateIndex opts); [|reflexivity].
  by destruct (grantsMaxUpdateIndex _ _).
Qed.

(** X17.  The grants of a listing come in ascending order of id; with
    paging there are at most [Limit] of them, and the total count
    written back with a page is never less than the page. *)
Theorem ListGrants_ordered_by_id (tx : ReadTxn) (opts : ListGrantsOptions) :
  invariants.ascending (result_ (ListGrants tx opts))
  ∧ (∀ p, Pagination_ opts = Some p ->
          (length (result_ (ListGrants tx opts)) <= Limit p)%nat)
  ∧ (∀ n, totalCount_ (ListGrants tx opts) = Some n ->
          Z.of_nat (length (result_ (ListGrants tx opts))) <= n).
Proof.
  destruct (subjectsFor tx opts) as [e|subjects] eqn:Hsub.
  - unfold ListGrants. rewrite Hsub. cbn.
    split; [constructor|]. split; [intros; lia|discriminate].
  - rewrite (ListGrants_result tx opts subjects Hsub). split; [|split].
    + apply PaginateQuery_ascending, orderById_ascending.
    + intros p ->. cbn. rewrite length_take. lia.
    + unfold ListGrants. rewrite Hsub.
      set (matching := orderById _).
      assert (∀ n, match Pagination_ opts, PaginateQuery (Pagination_ opts) matching with
                   | Some _, _ :: _ => Some (Z.of_nat (length matching))
                   | _, _ => None
                   end = Some n ->
                   Z.of_nat (length (PaginateQuery (Pagination_ opts) matching)) <= n)
        as Htotal.
      { intros n. destruct (Pagination_ opts) as [p|]; [|discriminate]. cbn.
        destruct (take (Limit p) (drop (Offset p) matching)) eqn:E; [discriminate|].
        intros [= <-]. rewrite <- E, length_take, length_drop. lia. }
      destruct (MaxUpdateIndex opts); [|exact Htotal].
      destruct (grantsMaxUpdateIndex _ _). exact Htotal.
Qed.

(** X18.  Every grant a listing returns passes every condition the
    options give: its privilege is one of [ByPrivileges], its resource
    is [ByResource], it is on [ByDestination] (both, when both are
    given), it is not the connector grant when that is excluded, and
    its subject is [BySubject] when inheritance is not asked for. *)
Theorem ListGrants_respects_filters (tx : ReadTxn) (opts : ListGrantsOptions)
    (g : Grant) :
  g ∈ result_ (ListGrants tx opts) ->
  (ByPrivileges opts <> [] -> Privilege g ∈ ByPrivileges opts)
  ∧ (ByResource opts <> EmptyString -> Resource g = ByResource opts)
  ∧ (ByDestination opts <> EmptyString ->
     destinationMatches (ByDestination opts) g = true)
  ∧ (ExcludeConnectorGrant opts = true ->
     Privilege g <> "connector" ∨ Resource g <> "infra")
  ∧ (BySubject opts <> EmptyString ->
     IncludeInheritedFromGroups opts = false ->
     Subject g = BySubject opts).
Proof.
  intros Hin. apply ListGrants_sound in Hin as (subjects & Hsub & Hw & _).
  apply listWhere_true in Hw as [(_ & _ & Hrest) Hsubj].
  unfold restWhere in Hrest.
  apply andb_true_iff in Hrest as [Hrest Hex].
  apply andb_true_iff in Hrest as [Hrest Hdest].
  apply andb_true_iff in Hrest as [Hpriv Hres].
  split; [|split; [|split; [|split]]].
  - intros Hne. destruct (ByPrivileges opts) as [|p ps] eqn:E; [done|].
    by apply inStrings_elem_of.
  - intros Hne. apply String.eqb_neq in Hne. rewrite Hne in Hres.
    by apply String.eqb_eq in Hres.
  - intros Hne. apply String.eqb_neq in Hne. by rewrite Hne in Hdest.
  - intros Hon. rewrite Hon in Hex. cbn in Hex.
    apply negb_true_iff, andb_false_iff in Hex as [Hex|Hex];
      apply String.eqb_neq in Hex; [by left|by right].
  - intros Hne Hinc. unfold subjectsFor in Hsub.
    apply String.eqb_neq in Hne. rewrite Hne, Hinc in Hsub. cbn in Hsub.
    injection Hsub as <-. by apply list_elem_of_singleton in Hsubj.
Qed.

(** X19.  Without a subject, [IncludeInheritedFromGroups] has no effect:
    the call is not rejected and returns what it returns with the option
    unset; unpaged, that is every live grant of the transaction's
    organization that passes the other conditions, whatever its
    subject. *)
Theorem ListGrants_without_subject_ignores_inheritance (tx : ReadTxn)
    (privileges : list string) (resource destination : string)
    (inherited excludeConnector : bool) (page : option Pagination)
    (maxIndex : bool) :
  ListGrants tx (mkListGrantsOptions EmptyString privileges resource destination
                   inherited excludeConnector page maxIndex)
  = ListGrants tx (mkListGrantsOptions EmptyString privileges resource destination
                     false excludeConnector page maxIndex)
  ∧ ∀ g,
      g ∈ result_ (ListGrants tx
                     (mkListGrantsOptions EmptyString privileges resource destination
                        inherited excludeConnector None maxIndex))
      ↔ g ∈ grants (rows tx)
        ∧ DeletedAt (GModel g) = None
        ∧ OrganizationID g = OrganizationID_ tx
        ∧ restWhere (mkListGrantsOptions EmptyString privileges resource destination
                       inherited excludeConnector None maxIndex) g = true.
Proof.
  split; [reflexivity|]. intros g.
  set (opts := mkListGrantsOptions _ _ _ _ _ _ _ _).
  assert (subjectsFor tx opts = inr None) as Hsub by reflexivity.
  split.
  - intros Hin. apply ListGrants_sound in Hin as (subjects & Hsub' & Hw & Hrow).
    rewrite Hsub in Hsub'. injection Hsub' as <-.
    apply listWhere_true in Hw as [(Hlive & Horg & Hrest) _]. done.
  - intros (Hrow & Hlive & Horg & Hrest).
    apply (ListGrants_complete tx opts None g); [reflexivity|exact Hsub| |exact Hrow].
    apply listWhere_true. done.
Qed.

End ListingOrder.

(** ** The properties at concrete rows *)

Section StoredRows.
Import models data.

(** A grant created in [store.wtx1], whose sequence stands at 7, is
    read back with the update index 8. *)
Lemma CreateGrant_then_GetGrant_witness :
  ∃ row,
    GetGrant (asReadTxn (CreateGrant 200 store.now store.wtx1 cases.newGrant).1.2)
      (mkGetGrantOptions 200 EmptyString EmptyString EmptyString)
    = inr row
    ∧ UpdateIndex row = 8
    ∧ (Subject row, Privilege row, Resource row) = ("u:3", "view", "prod").
Proof.
  pose proof (CreateGrant_then_GetGrant 200 store.now store.wtx1 cases.newGrant)
    as Hread.
  destruct (CreateGrant 200 store.now store.wtx1 cases.newGrant)
    as [[err tx'] g] eqn:Hrun.
  assert (ID (GModel g) = 200) as Hg.
  { vm_compute in Hrun. injection Hrun as _ _ <-. reflexivity. }
  destruct Hread as (_ & row & Hbyid & _ & Hindex & _ & _ & Hfields).
  - reflexivity.
  - discriminate.
  - discriminate.
  - discriminate.
  - reflexivity.
  - discriminate.
  - intros h Hh.
    repeat (apply elem_of_cons in Hh as [->|Hh]); [reflexivity ..|].
    by apply elem_of_nil in Hh.
  - exists row. cbn [fst snd]. rewrite Hg in Hbyid.
    split; [exact Hbyid|]. split; [exact Hindex|].
    injection Hfields as _ -> -> -> _. reflexivity.
Defined.

(** The destination "prod" selects the resource "prod.default". *)
Lemma destination_selects_name_and_namespaces_witness :
  destinationMatches "prod" (store.row 105 1 "u:1" "view" "prod.default" 8) = true.
Proof.
  rewrite (destination_selects_name_and_namespaces "prod"
             (store.row 105 1 "u:1" "view" "prod.default" 8));
    reflexivity.
Defined.

(** After the grant 101 is deleted it is not found by id. *)
Lemma DeleteGrants_soft_deletes_witness :
  GetGrant (asReadTxn (DeleteGrants store.now store.wtx1 cases.byID101).2)
    (mkGetGrantOptions 101 EmptyString EmptyString EmptyString)
  = inl ErrNotFound.
Proof.
  destruct (DeleteGrants_soft_deletes store.now store.wtx1
              (DeleteGrants store.now store.wtx1 cases.byID101).2 cases.byID101)
    as (_ & _ & _ & Hgone).
  - reflexivity.
  - apply Hgone. discriminate.
Defined.

Lemma wtx1_sequenced : invariants.sequenced store.wtx1.
Proof.
  split; [split|].
  - cbn. repeat (apply NoDup_cons_2;
                   [intros Hin;
                    repeat (apply elem_of_cons in Hin as [Hin|Hin]; [discriminate|]);
                    by apply elem_of_nil in Hin|]).
    apply NoDup_nil_2.
  - intros g Hg. cbn in Hg.
    repeat (apply elem_of_cons in Hg as [->|Hg]); [cbn; lia ..|].
    by apply elem_of_nil in Hg.
  - intros sp Hsp. by apply elem_of_nil in Hsp.
Qed.

(** The rows of [store.wtx1] keep distinct update indexes when the
    duplicate grant is refused and when the grant 101 is deleted. *)
Lemma writes_keep_update_indexes_distinct_witness :
  invariants.sequenced (CreateGrant 200 store.now store.wtx1 store.duplicate).1.2
  ∧ invariants.sequenced (DeleteGrants store.now store.wtx1 cases.byID101).2.
Proof.
  destruct (writes_keep_update_indexes_distinct 200 store.now store.wtx1
              store.duplicate cases.byID101 wtx1_sequenced)
    as [[Hcreate _] [Hdelete _]].
  split; [exact Hcreate|exact Hdelete].
Defined.

(** The group's grant listed for user 1 is on the destination asked
    for. *)
Lemma ListGrants_respects_filters_witness :
  destinationMatches "prod" store.adminProd = true.
Proof.
  destruct (ListGrants_respects_filters (U := fixtures.specUid) store.tx1
              (store.listing "u:1" "prod" true false) store.adminProd)
    as (_ & _ & Hdest & _).
  - apply list_elem_of_further, list_elem_of_here.
  - apply Hdest. discriminate.
Defined.

End StoredRows.
